(** * SUPer: the run-length codec of [SUPer/pgraphics.py]

    A shallow embedding of [PGraphics.encode_rle], [PGraphics.decode_rle] and
    [PGraphics.bitmap_to_ods], and the properties of the codec: the shape of
    the emitted codes, the clipping of runs at row boundaries, the decoder
    automaton, the filtered decoding of segment lists and the round trip. *)

From Stdlib Require Import ZArith List Bool Arith Lia Permutation.
Import ListNotations.

(** ** Python outcomes *)

(** The exceptions the modelled code can raise. *)
Inductive exn : Type :=
| IndexError
| ValueError
| AssertionError
| ZeroDivisionError.

(** The outcome of a call: a value, an exception, or a [while] loop that was
    given too little fuel ([encode_rle_terminates]: it never is). *)
Inductive res (A : Type) : Type :=
| Ret (a : A)
| Raise (e : exn)
| OutOfFuel.

Arguments Ret {A} a.
Arguments Raise {A} e.
Arguments OutOfFuel {A}.

Definition bind {A B : Type} (m : res A) (f : A -> res B) : res B :=
  match m with
  | Ret a => f a
  | Raise e => Raise e
  | OutOfFuel => OutOfFuel
  end.

Notation "x <- m ;; k" := (bind m (fun x => k))
  (at level 61, m at next level, right associativity).
Notation "' p <- m ;; k" := (bind m (fun x => match x with p => k end))
  (at level 61, p pattern, m at next level, right associativity).

(** ** NumPy arrays, as far as the codec looks at them *)

(** Integer element types. *)
Inductive np_dtype : Type :=
| uint8 | int8 | uint16 | int16 | uint32 | int32 | uint64 | int64.

Definition np_dtype_eqb (a b : np_dtype) : bool :=
  match a, b with
  | uint8, uint8 | int8, int8 | uint16, uint16 | int16, int16
  | uint32, uint32 | int32, int32 | uint64, uint64 | int64, int64 => true
  | _, _ => false
  end.

(** The values an element of the given type can take. *)
Definition in_dtype (d : np_dtype) (v : Z) : Prop :=
  match d with
  | uint8 => 0 <= v < 2 ^ 8
  | int8 => - 2 ^ 7 <= v < 2 ^ 7
  | uint16 => 0 <= v < 2 ^ 16
  | int16 => - 2 ^ 15 <= v < 2 ^ 15
  | uint32 => 0 <= v < 2 ^ 32
  | int32 => - 2 ^ 31 <= v < 2 ^ 31
  | uint64 => 0 <= v < 2 ^ 64
  | int64 => - 2 ^ 63 <= v < 2 ^ 63
  end%Z.

(** An array: its element type, its shape and its elements in row-major
    order (what [np.ravel] returns). *)
Record ndarray : Type := mk_ndarray {
  dtype : np_dtype;
  shape : list nat;
  ravel : list Z
}.

(** [a.size] *)
Definition size (a : ndarray) : nat := length (ravel a).

(** The arrays NumPy can build: as many elements as the shape says, each one
    a value of the element type. *)
Definition ndarray_ok (a : ndarray) : Prop :=
  size a = fold_right Nat.mul 1 (shape a) /\ Forall (in_dtype (dtype a)) (ravel a).

(** [np.squeeze]: the axes of length one are dropped, the elements stay. *)
Definition squeeze (a : ndarray) : ndarray :=
  {| dtype := dtype a;
     shape := filter (fun d => negb (d =? 1)) (shape a);
     ravel := ravel a |}.

(** [a.shape[n]] *)
Definition shape_getitem (a : ndarray) (n : nat) : res nat :=
  match nth_error (shape a) n with
  | Some d => Ret d
  | None => Raise IndexError
  end.

(** [l[n]] for an index that is not negative. *)
Definition getitem (l : list Z) (n : nat) : res Z :=
  match nth_error l n with
  | Some x => Ret x
  | None => Raise IndexError
  end.

(** [a % b] on integers that are not negative. *)
Definition py_mod (a b : nat) : res nat :=
  if b =? 0 then Raise ZeroDivisionError else Ret (a mod b).

(** The rows of a two-dimensional array ([a.tolist()]): [h] rows of [w]
    elements each. *)
Fixpoint rows (h w : nat) (l : list Z) : list (list Z) :=
  match h with
  | O => []
  | S h' => firstn w l :: rows h' w (skipn w l)
  end.

Definition tolist (a : ndarray) : list (list Z) :=
  match shape a with
  | [h; w] => rows h w (ravel a)
  | _ => []
  end.

(** ** Bytes *)

Definition is_byte (z : Z) : Prop := (0 <= z < 256)%Z.

Definition is_byteb (z : Z) : bool := ((0 <=? z) && (z <? 256))%Z.

(** [bytearray(l)]: every element has to be in [range(0, 256)]. *)
Definition bytearray (l : list Z) : res (list Z) :=
  if forallb is_byteb l then Ret l else Raise ValueError.

(** ** The encoder *)

(** The last value of [range(1, 16384)]. *)
Definition max_run : nat := Z.to_nat 16383.

(** The [for k in range(1, 16384)] loop of [encode_rle], at the value [k] of
    the loop variable, [n] values of the range still to come.  It returns the
    value [k] is left with and the flag [insert_line_end]. *)
Fixpoint for_k (_bitmap : ndarray) (_fp : list Z) (i : nat)
    (n k : nat) (insert_line_end : bool) : res (nat * bool) :=
  w <- shape_getitem _bitmap 1 ;;
  c <- py_mod i w ;;
  if w <=? c + k then Ret (k, true)
  else
    a <- getitem _fp (i + k) ;;
    b <- getitem _fp i ;;
    if negb (a =? b)%Z then Ret (k, insert_line_end)
    else
      match n with
      | O => Ret (k, insert_line_end)
      | S n' => for_k _bitmap _fp i n' (S k) insert_line_end
      end.

(** The code of one run: [k] pixels of value [v]. *)
Definition run_code (v : Z) (k : nat) : res (list Z) :=
  if negb (v =? 0)%Z then
    if k <? 3 then bytearray (repeat v k)
    else if k <=? 63 then bytearray [0; Z.lor 0x80 (Z.of_nat k); v]%Z
    else bytearray [0; Z.lor 0xC0 (Z.shiftr (Z.of_nat k) 8);
                    Z.land (Z.of_nat k) 0xFF; v]%Z
  else
    if k <=? 63 then bytearray [0; Z.of_nat k]%Z
    else bytearray [0; Z.lor 0x40 (Z.shiftr (Z.of_nat k) 8);
                    Z.land (Z.of_nat k) 0xFF]%Z.

(** The variables the [while] loop of [encode_rle] updates. *)
Record encoder : Type := mk_encoder {
  enc_i : nat;
  enc_insert_line_end : bool;
  enc_rle_data : list Z
}.

(** One pass through the body of the [while] loop. *)
Definition while_body (_bitmap : ndarray) (_fp : list Z) (st : encoder)
    : res encoder :=
  let i := enc_i st in
  '(k, insert_line_end) <-
     for_k _bitmap _fp i (max_run - 1) 1 (enc_insert_line_end st) ;;
  v <- getitem _fp i ;;
  code <- run_code v k ;;
  let rle_data := enc_rle_data st ++ code in
  if insert_line_end
  then Ret (mk_encoder (i + k) false (rle_data ++ [0; 0]%Z))
  else Ret (mk_encoder (i + k) insert_line_end rle_data).

(** [while i < _fp.size: ...] *)
Fixpoint while_loop (fuel : nat) (_bitmap : ndarray) (_fp : list Z)
    (st : encoder) : res (list Z) :=
  if enc_i st <? length _fp then
    match fuel with
    | O => OutOfFuel
    | S fuel' =>
        st' <- while_body _bitmap _fp st ;;
        while_loop fuel' _bitmap _fp st'
    end
  else Ret (enc_rle_data st).

(** [PGraphics.encode_rle].  Every pass advances [i], so that [_fp.size]
    passes are enough. *)
Definition encode_rle (bitmap : ndarray) : res (list Z) :=
  let _bitmap := squeeze bitmap in
  let _fp := ravel _bitmap in
  while_loop (length _fp) _bitmap _fp (mk_encoder 0 false []).

(** ** Segments *)

(** Modelled from the spec: the segment record of [SUPer/segments.py], of
    which the decoder reads an object identifier and a byte payload. *)
Module ODS.
Record t : Type := mk { o_id : Z; data : list Z }.
End ODS.

(** ** The decoder *)

Inductive RLEDecoderState : Type :=
| NEED_MORE
| NEW_CODE
| SMALL_TSP
| LARGE_TSP
| SMALL_CCO
| LARGE_CCO.

(** [RLEDecoderState(v)]: the member whose value is [v]. *)
Definition RLEDecoderState_of (v : Z) : res RLEDecoderState :=
  match v with
  | (-2)%Z => Ret NEED_MORE
  | (-1)%Z => Ret NEW_CODE
  | 0%Z => Ret SMALL_TSP
  | 1%Z => Ret LARGE_TSP
  | 2%Z => Ret SMALL_CCO
  | 3%Z => Ret LARGE_CCO
  | _ => Raise ValueError
  end.

(** The variables of [decode_rle]. *)
Record decoder : Type := mk_decoder {
  plane2d : list (list Z);
  line_l : list Z;
  decoder_state : RLEDecoderState;
  tmp : Z
}.

(** [[x] * n]: empty when [n] is not positive. *)
Definition times (x : Z) (n : Z) : list Z := repeat x (Z.to_nat n).

(** The body of [for byte in rle_data]. *)
Definition decode_byte (st : decoder) (byte : Z) : res decoder :=
  match decoder_state st with
  | NEW_CODE =>
      if (byte >? 0)%Z
      then Ret (mk_decoder (plane2d st) (line_l st ++ [byte]) NEW_CODE (tmp st))
      else Ret (mk_decoder (plane2d st) (line_l st) NEED_MORE (tmp st))
  | NEED_MORE =>
      if (byte =? 0)%Z
      then Ret (mk_decoder (plane2d st ++ [line_l st]) [] NEW_CODE (tmp st))
      else
        s <- RLEDecoderState_of (Z.shiftr byte 6) ;;
        let tmp' := Z.land byte 0x3F in
        match s with
        | SMALL_TSP =>
            Ret (mk_decoder (plane2d st) (line_l st ++ times 0 tmp') NEW_CODE tmp')
        | _ => Ret (mk_decoder (plane2d st) (line_l st) s tmp')
        end
  | LARGE_TSP =>
      let tmp' := (Z.shiftl (tmp st) 8 + byte)%Z in
      Ret (mk_decoder (plane2d st) (line_l st ++ times 0 tmp') NEW_CODE tmp')
  | SMALL_CCO =>
      Ret (mk_decoder (plane2d st) (line_l st ++ times byte (tmp st)) NEW_CODE (tmp st))
  | LARGE_CCO =>
      if (tmp st >=? 0)%Z
      then Ret (mk_decoder (plane2d st) (line_l st) LARGE_CCO
                  ((Z.shiftl (tmp st) 8 + byte) * -1)%Z)
      else Ret (mk_decoder (plane2d st) (line_l st ++ times byte (-1 * tmp st))
                  NEW_CODE (tmp st))
  | SMALL_TSP => Ret st
  end.

(** [for byte in rle_data: ...] *)
Fixpoint for_byte (st : decoder) (rle_data : list Z) : res decoder :=
  match rle_data with
  | [] => Ret st
  | byte :: rest => st' <- decode_byte st byte ;; for_byte st' rest
  end.

(** What [decode_rle] accepts as [rle_data]. *)
Inductive rle_input : Type :=
| Bytes (b : list Z)
| Segment (o : ODS.t)
| Segments (l : list ODS.t).

(** [b''.join(...)] *)
Definition join (l : list (list Z)) : list Z := concat l.

(** The first lines of [decode_rle]: the bytes to decode. *)
Definition payload (rle_data : rle_input) (o_id : option Z) : list Z :=
  let rle_data :=
    match rle_data with
    | Segment o => Segments [o]
    | _ => rle_data
    end in
  match rle_data with
  | Segments l =>
      match o_id with
      | Some id =>
          join (map ODS.data (filter (fun x => (id =? ODS.o_id x)%Z) l))
      | None => join (map ODS.data l)
      end
  | Segment o => ODS.data o (* not reached: a segment was put in a list *)
  | Bytes b => b
  end.

(** The rows all have the length of the first one. *)
Definition same_lengths (plane : list (list Z)) : bool :=
  match plane with
  | [] => true
  | row :: rest => forallb (fun r => length r =? length row) rest
  end.

(** [np.asarray(plane2d)] on a list of rows of integers: the array of the
    rows when they are of one length, and [ValueError] when they are not
    (NumPy 1.24 and later refuse ragged rows). *)
Definition asarray (plane : list (list Z)) : res (list (list Z)) :=
  if same_lengths plane then Ret plane else Raise ValueError.

(** [PGraphics.decode_rle] *)
Definition decode_rle (rle_data : rle_input) (o_id : option Z)
    : res (list (list Z)) :=
  st <- for_byte (mk_decoder [] [] NEW_CODE 0) (payload rle_data o_id) ;;
  asarray (plane2d st).

(** ** Segment packaging *)

Section Packaging.

(** [ODS.from_scratch] belongs to [SUPer/segments.py]; the adapter only
    passes its arguments on. *)
Variable from_scratch : Z -> Z -> nat -> nat -> list Z -> list ODS.t.

(** [PGraphics.bitmap_to_ods], the keyword arguments left at their
    defaults but for [o_vn]. *)
Definition bitmap_to_ods (bitmap : ndarray) (o_id : Z) (o_vn : Z)
    : res (list ODS.t) :=
  if negb (np_dtype_eqb (dtype bitmap) uint8) then Raise AssertionError
  else
    match shape bitmap with
    | [height; width] =>
        data <- encode_rle bitmap ;;
        Ret (from_scratch o_id o_vn width height data)
    | _ => Raise ValueError
    end.

End Packaging.

(** ** The enclosing box of a group of events ([SUPer/utils.py]) *)

Module utils.

(** What [min_enclosing_cube] reads of an event: the corner and the size of
    its image, integers. *)
Record BaseEvent : Type := mk_event {
  x : Z;
  y : Z;
  width : Z;
  height : Z
}.

(** An integer, or one of the infinities of [np.inf]. *)
Inductive number : Type :=
| Int (z : Z)
| PosInf
| NegInf.

(** [Pos = namedtuple("Pos", "x y")] and [Dim = namedtuple("Dim", "w h")] *)
Record Pos : Type := mk_Pos { Pos_x : number; Pos_y : number }.
Record Dim : Type := mk_Dim { Dim_w : number; Dim_h : number }.

(** [a < b] and [a - b] for an integer [a]. *)
Definition lt_number (a : Z) (b : number) : bool :=
  match b with
  | Int z => (a <? z)%Z
  | PosInf => true
  | NegInf => false
  end.

Definition sub_number (a : Z) (b : number) : number :=
  match b with
  | Int z => Int (a - z)
  | PosInf => NegInf
  | NegInf => PosInf
  end.

(** The four variables of the loop. *)
Record corners : Type := mk_corners {
  pxtl : number;
  pytl : number;
  pxbr : Z;
  pybr : Z
}.

(** The body of [for event in group]. *)
Definition for_event (c : corners) (event : BaseEvent) : corners :=
  let pxtl' := if lt_number (x event) (pxtl c) then Int (x event) else pxtl c in
  let pytl' := if lt_number (y event) (pytl c) then Int (y event) else pytl c in
  let pxbr' := if (pxbr c <? x event + width event)%Z
               then (x event + width event)%Z else pxbr c in
  let pybr' := if (pybr c <? y event + height event)%Z
               then (y event + height event)%Z else pybr c in
  mk_corners pxtl' pytl' pxbr' pybr'.

(** [min_enclosing_cube] *)
Definition min_enclosing_cube (group : list BaseEvent) : Pos * Dim :=
  let c := fold_left for_event group (mk_corners PosInf PosInf 0 0) in
  (mk_Pos (pxtl c) (pytl c),
   mk_Dim (sub_number (pxbr c) (pxtl c)) (sub_number (pybr c) (pytl c))).

End utils.

(** ** Runs, states and streams: the vocabulary of the properties *)

(** The run the encoder takes at position [i] of a row-major buffer whose
    rows are [w] wide: [k] pixels of value [v], which either end the row
    ([at_end]), or stop before its end at a pixel of another value or at the
    longest length a code can carry. *)
Definition run_stops (_fp : list Z) (w i : nat) (v : Z) (k : nat)
    (at_end : bool) : Prop :=
  if at_end then i mod w + k = w
  else i mod w + k < w /\ (k = max_run \/ nth_error _fp (i + k) <> Some v).

Definition is_run (_fp : list Z) (w i : nat) (v : Z) (k : nat) (at_end : bool)
    : Prop :=
  1 <= k <= max_run /\
  firstn k (skipn i _fp) = repeat v k /\
  run_stops _fp w i v k at_end.

(** The bytes [insert_line_end] adds. *)
Definition line_end (at_end : bool) : list Z :=
  if at_end then [0; 0]%Z else [].

(** The states the loop goes through on a bitmap, from its first one. *)
Inductive reaches (_bitmap : ndarray) (_fp : list Z) : encoder -> Prop :=
| reaches_start : reaches _bitmap _fp (mk_encoder 0 false [])
| reaches_pass (st st' : encoder) :
    reaches _bitmap _fp st ->
    enc_i st < length _fp ->
    while_body _bitmap _fp st = Ret st' ->
    reaches _bitmap _fp st'.

(** The encoder writes [bytes] for the [k] pixels at position [i]: the loop
    gets to [i], the pass there adds [bytes] to what is written and moves on
    to [i + k], and the bytes are found at that place in the result. *)
Definition emits (bitmap : ndarray) (i k : nat) (bytes : list Z) : Prop :=
  exists before after,
    reaches (squeeze bitmap) (ravel bitmap) (mk_encoder i false before) /\
    while_body (squeeze bitmap) (ravel bitmap) (mk_encoder i false before)
    = Ret (mk_encoder (i + k) false (before ++ bytes)) /\
    encode_rle bitmap = Ret (before ++ bytes ++ after).

(** What the code of a run does to a decoder that awaits a new code: the
    pixels of the run are added to the current row. *)
Definition decodes_as (code : list Z) (v : Z) (k : nat) : Prop :=
  forall P L t, exists t',
    for_byte (mk_decoder P L NEW_CODE t) code
    = Ret (mk_decoder P (L ++ repeat v k) NEW_CODE t').

(** The payloads of the segments whose identifier is [id], one after the
    other in the order of the list. *)
Fixpoint matching_payloads (id : Z) (l : list ODS.t) : list Z :=
  match l with
  | [] => []
  | x :: l' =>
      if (ODS.o_id x =? id)%Z
      then ODS.data x ++ matching_payloads id l'
      else matching_payloads id l'
  end.

(** The payloads of all the segments, one after the other. *)
Fixpoint all_payloads (l : list ODS.t) : list Z :=
  match l with
  | [] => []
  | x :: l' => ODS.data x ++ all_payloads l'
  end.



(** *** Bitmaps used as examples *)


Definition int16_bitmap : ndarray :=
  mk_ndarray int16 [2; 2] [1; 2; 3; 4]%Z.

(** Two rows of 63 pixels of value 5 followed by 64 transparent pixels. *)
Definition boundary_bitmap : ndarray :=
  mk_ndarray uint8 [2; 127]
    ((repeat 5 63 ++ repeat 0 64) ++ (repeat 5 63 ++ repeat 0 64))%Z.

(** ** Basic facts *)

Lemma max_run_Z : Z.of_nat max_run = 16383%Z.
Proof. vm_compute. reflexivity. Qed.

Lemma is_byteb_true (z : Z) : is_byteb z = true <-> is_byte z.
Proof. unfold is_byteb, is_byte. rewrite andb_true_iff. lia. Qed.

Lemma bytearray_Ret (l : list Z) : Forall is_byte l -> bytearray l = Ret l.
Proof.
  intros H. unfold bytearray.
  replace (forallb is_byteb l) with true; [reflexivity|].
  symmetry. apply forallb_forall. intros x Hx.
  apply is_byteb_true. rewrite Forall_forall in H. auto.
Qed.

Lemma forallb_is_byte (l : list Z) :
  forallb is_byteb l = true -> Forall is_byte l.
Proof.
  intros H. apply Forall_forall. intros x Hx. apply is_byteb_true.
  rewrite forallb_forall in H. auto.
Qed.

(** A six-bit value put under a two-bit tag: the bits do not overlap. *)
Lemma lor_tag (tag h : Z) :
  (0 <= tag < 4)%Z -> (0 <= h < 64)%Z ->
  Z.lor (tag * 64) h = (tag * 64 + h)%Z.
Proof.
  intros Ht Hh.
  assert (Hall : forallb (fun t => forallb (fun n =>
            Z.lor (Z.of_nat t * 64) (Z.of_nat n) =? Z.of_nat t * 64 + Z.of_nat n)%Z
            (seq 0 64)) (seq 0 4) = true) by (vm_compute; reflexivity).
  rewrite forallb_forall in Hall.
  specialize (Hall (Z.to_nat tag)).
  rewrite forallb_forall in Hall.
  specialize (fun H => Hall H (Z.to_nat h)).
  rewrite !Z2Nat.id in Hall by lia.
  apply Z.eqb_eq. apply Hall; apply in_seq; lia.
Qed.

Lemma shiftr6_tag (tag h : Z) :
  (0 <= h < 64)%Z -> Z.shiftr (tag * 64 + h) 6 = tag.
Proof.
  intros Hh. rewrite Z.shiftr_div_pow2 by lia.
  change (2 ^ 6)%Z with 64%Z.
  symmetry. apply Z.div_unique with (r := h); lia.
Qed.

Lemma land63_tag (tag h : Z) :
  (0 <= h < 64)%Z -> Z.land (tag * 64 + h) 0x3F = h.
Proof.
  intros Hh. change 0x3F%Z with (Z.ones 6).
  rewrite Z.land_ones by lia. change (2 ^ 6)%Z with 64%Z.
  symmetry. apply Z.mod_unique with (q := tag); lia.
Qed.

(** The two bytes of a long run length give the length back. *)
Lemma long_length (k : Z) :
  (0 <= k)%Z ->
  (Z.shiftl (Z.shiftr k 8) 8 + Z.land k 0xFF)%Z = k.
Proof.
  intros Hk. rewrite Z.shiftl_mul_pow2, Z.shiftr_div_pow2 by lia.
  change 0xFF%Z with (Z.ones 8). rewrite Z.land_ones by lia.
  change (2 ^ 8)%Z with 256%Z.
  pose proof (Z.div_mod k 256). lia.
Qed.

Lemma long_high (k : Z) :
  (0 <= k < 16384)%Z -> (0 <= Z.shiftr k 8 < 64)%Z.
Proof.
  intros Hk. rewrite Z.shiftr_div_pow2 by lia. change (2 ^ 8)%Z with 256%Z.
  split; [apply Z.div_pos; lia | apply Z.div_lt_upper_bound; lia].
Qed.

Lemma long_low (k : Z) : (0 <= Z.land k 0xFF < 256)%Z.
Proof.
  change 0xFF%Z with (Z.ones 8). rewrite Z.land_ones by lia.
  apply Z.mod_pos_bound. reflexivity.
Qed.

(** ** The decoder on the codes of the encoder *)

Lemma for_byte_app (st : decoder) (a b : list Z) :
  for_byte st (a ++ b) = (st' <- for_byte st a ;; for_byte st' b).
Proof.
  revert st. induction a as [|x a IH]; intros st; simpl; [reflexivity|].
  destruct (decode_byte st x) as [st'| |]; simpl; auto.
Qed.

Lemma for_byte_literals (v : Z) (k : nat) (P : list (list Z)) (L : list Z) (t : Z) :
  (0 < v)%Z ->
  for_byte (mk_decoder P L NEW_CODE t) (repeat v k)
  = Ret (mk_decoder P (L ++ repeat v k) NEW_CODE t).
Proof.
  intros Hv. revert L. induction k as [|k IH]; intros L; simpl.
  - rewrite app_nil_r. reflexivity.
  - unfold decode_byte at 1. simpl.
    replace (v >? 0)%Z with true by (symmetry; apply Z.gtb_lt; lia).
    simpl. rewrite IH. rewrite <- app_assoc. reflexivity.
Qed.

(** One byte through the decoder, only the fields of the state reduced. *)
Ltac decode_step :=
  cbn [for_byte]; unfold decode_byte at 1;
  cbn [decoder_state plane2d line_l tmp bind].

Lemma eqb_0_false (z : Z) : (0 < z)%Z -> (z =? 0)%Z = false.
Proof. intros H. apply Z.eqb_neq. lia. Qed.

Lemma run_code_short_color (v : Z) (k : nat) :
  is_byte v -> 3 <= k <= 63 ->
  decodes_as [0; Z.lor 0x80 (Z.of_nat k); v]%Z v k.
Proof.
  intros Hv Hk P L t.
  change 0x80%Z with (2 * 64)%Z. rewrite lor_tag by lia.
  exists (Z.of_nat k).
  decode_step. cbn [Z.gtb Z.compare].
  decode_step. rewrite eqb_0_false by lia.
  rewrite shiftr6_tag, land63_tag by lia.
  cbn [RLEDecoderState_of bind].
  decode_step. unfold times. rewrite Nat2Z.id. reflexivity.
Qed.

Lemma run_code_long_color (v : Z) (k : nat) :
  is_byte v -> 64 <= k <= max_run ->
  decodes_as [0; Z.lor 0xC0 (Z.shiftr (Z.of_nat k) 8);
              Z.land (Z.of_nat k) 0xFF; v]%Z v k.
Proof.
  intros Hv Hk P L t. pose proof max_run_Z as HM.
  pose proof (@long_high (Z.of_nat k)) as Hh.
  pose proof (@long_length (Z.of_nat k)) as Hlen.
  change 0xC0%Z with (3 * 64)%Z. rewrite lor_tag by lia.
  exists (- Z.of_nat k)%Z.
  decode_step. cbn [Z.gtb Z.compare].
  decode_step. rewrite eqb_0_false by lia.
  rewrite shiftr6_tag, land63_tag by lia.
  cbn [RLEDecoderState_of bind].
  decode_step.
  replace (Z.shiftr (Z.of_nat k) 8 >=? 0)%Z with true
    by (symmetry; apply Z.geb_le; lia).
  rewrite Hlen by lia.
  decode_step.
  replace (Z.of_nat k * -1 >=? 0)%Z with false
    by (symmetry; rewrite Z.geb_leb; apply Z.leb_gt; lia).
  unfold times.
  replace (-1 * (Z.of_nat k * -1))%Z with (Z.of_nat k) by lia.
  replace (Z.of_nat k * -1)%Z with (- Z.of_nat k)%Z by lia.
  rewrite Nat2Z.id. reflexivity.
Qed.

Lemma run_code_short_transparent (k : nat) :
  1 <= k <= 63 -> decodes_as [0; Z.of_nat k]%Z 0%Z k.
Proof.
  intros Hk P L t.
  exists (Z.of_nat k).
  decode_step. cbn [Z.gtb Z.compare].
  decode_step. rewrite eqb_0_false by lia.
  pose proof (@shiftr6_tag 0 (Z.of_nat k)) as Hs.
  pose proof (@land63_tag 0 (Z.of_nat k)) as Hl.
  rewrite Z.mul_0_l, Z.add_0_l in Hs, Hl.
  rewrite Hs, Hl by lia.
  cbn [RLEDecoderState_of bind].
  unfold times. rewrite Nat2Z.id. reflexivity.
Qed.

Lemma run_code_long_transparent (k : nat) :
  64 <= k <= max_run ->
  decodes_as [0; Z.lor 0x40 (Z.shiftr (Z.of_nat k) 8);
              Z.land (Z.of_nat k) 0xFF]%Z 0%Z k.
Proof.
  intros Hk P L t. pose proof max_run_Z as HM.
  pose proof (@long_high (Z.of_nat k)) as Hh.
  pose proof (@long_length (Z.of_nat k)) as Hlen.
  change 0x40%Z with (1 * 64)%Z. rewrite lor_tag by lia.
  exists (Z.of_nat k).
  decode_step. cbn [Z.gtb Z.compare].
  decode_step. rewrite eqb_0_false by lia.
  rewrite shiftr6_tag, land63_tag by lia.
  cbn [RLEDecoderState_of bind].
  decode_step. rewrite Hlen by lia.
  unfold times. rewrite Nat2Z.id. reflexivity.
Qed.

(** The code of every run the encoder can meet is built without an error
    and gives the run back. *)
Lemma run_code_decodes (v : Z) (k : nat) :
  is_byte v -> 1 <= k <= max_run ->
  exists code, run_code v k = Ret code /\ decodes_as code v k.
Proof.
  intros Hv Hk. pose proof max_run_Z as HM. unfold run_code.
  pose proof (@long_high (Z.of_nat k)) as Hh.
  pose proof (long_low (Z.of_nat k)) as Hl.
  assert (H0 : is_byte 0) by (unfold is_byte; lia).
  destruct (Z.eqb_spec v 0) as [->|Hv0]; cbn [negb].
  - destruct (Nat.leb_spec k 63) as [Hk63|Hk63].
    + eexists. split.
      * apply bytearray_Ret. repeat constructor; unfold is_byte; lia.
      * apply run_code_short_transparent. lia.
    + eexists. split.
      * apply bytearray_Ret.
        change 0x40%Z with (1 * 64)%Z. rewrite lor_tag by lia.
        repeat constructor; unfold is_byte; lia.
      * apply run_code_long_transparent. lia.
  - destruct (Nat.ltb_spec k 3) as [Hk3|Hk3].
    + eexists. split.
      * apply bytearray_Ret. apply Forall_forall. intros x Hx.
        apply repeat_spec in Hx. subst x. exact Hv.
      * intros P L t. exists t. apply for_byte_literals.
        unfold is_byte in Hv. lia.
    + destruct (Nat.leb_spec k 63) as [Hk63|Hk63].
      * eexists. split.
        -- apply bytearray_Ret.
           change 0x80%Z with (2 * 64)%Z. rewrite lor_tag by lia.
           repeat constructor; unfold is_byte in *; lia.
        -- apply run_code_short_color; [exact Hv | lia].
      * eexists. split.
        -- apply bytearray_Ret.
           change 0xC0%Z with (3 * 64)%Z. rewrite lor_tag by lia.
           repeat constructor; unfold is_byte in *; lia.
        -- apply run_code_long_color; [exact Hv | lia].
Qed.

(** ** The states of the [while] loop *)

(** A pass only adds bytes, and leaves [insert_line_end] unset. *)
Lemma while_body_appends (_bitmap : ndarray) (_fp : list Z) (st st' : encoder) :
  while_body _bitmap _fp st = Ret st' ->
  enc_insert_line_end st' = false /\
  exists more, enc_rle_data st' = enc_rle_data st ++ more.
Proof.
  unfold while_body.
  destruct (for_k _ _ _ _ _ _) as [[k e]| |]; cbn [bind]; try discriminate.
  destruct (getitem _ _) as [v| |]; cbn [bind]; try discriminate.
  destruct (run_code v k) as [code| |]; cbn [bind]; try discriminate.
  destruct e; intros H; injection H as <-; cbn [enc_insert_line_end enc_rle_data].
  - split; [reflexivity|]. exists (code ++ [0; 0]%Z).
    rewrite app_assoc. reflexivity.
  - split; [reflexivity|]. exists code. reflexivity.
Qed.

Lemma while_loop_appends (_bitmap : ndarray) (_fp : list Z) (fuel : nat) :
  forall st out,
    while_loop fuel _bitmap _fp st = Ret out ->
    exists more, out = enc_rle_data st ++ more.
Proof.
  induction fuel as [|fuel IH]; intros st out; cbn [while_loop].
  - destruct (enc_i st <? length _fp); [discriminate|].
    intros H. injection H as <-. exists []. rewrite app_nil_r. reflexivity.
  - destruct (enc_i st <? length _fp).
    + destruct (while_body _bitmap _fp st) as [st'| |] eqn:Hbody;
        cbn [bind]; try discriminate.
      intros H. apply IH in H. destruct H as (more & ->).
      apply while_body_appends in Hbody. destruct Hbody as (_ & more' & ->).
      exists (more' ++ more). rewrite app_assoc. reflexivity.
    + intros H. injection H as <-. exists []. rewrite app_nil_r. reflexivity.
Qed.

(** The bytes the loop returns begin with the bytes of every state it goes
    through. *)
Lemma reaches_prefix (_bitmap : ndarray) (_fp : list Z) (fuel : nat)
    (out : list Z) (st : encoder) :
  while_loop fuel _bitmap _fp (mk_encoder 0 false []) = Ret out ->
  reaches _bitmap _fp st ->
  exists more, out = enc_rle_data st ++ more.
Proof.
  intros Hout Hreach.
  assert (H : exists f, while_loop f _bitmap _fp st = Ret out).
  { induction Hreach as [|st st' _ IH Hi Hbody].
    - exists fuel. exact Hout.
    - destruct IH as (f & Hf). destruct f as [|f]; cbn [while_loop] in Hf.
      + apply Nat.ltb_lt in Hi. rewrite Hi in Hf. discriminate.
      + apply Nat.ltb_lt in Hi. rewrite Hi, Hbody in Hf. cbn [bind] in Hf.
        exists f. exact Hf. }
  destruct H as (f & Hf). apply while_loop_appends in Hf. exact Hf.
Qed.

Lemma reaches_flag (_bitmap : ndarray) (_fp : list Z) (st : encoder) :
  reaches _bitmap _fp st -> enc_insert_line_end st = false.
Proof.
  intros [|st0 st' _ _ Hbody]; [reflexivity|].
  apply while_body_appends in Hbody. apply Hbody.
Qed.

(** Every pass advances [i]: the loop never runs out of the fuel
    [encode_rle] gives it, whatever the bitmap. *)
Lemma for_k_advances (_bitmap : ndarray) (_fp : list Z) (i n : nat) :
  forall k ile k' e,
    for_k _bitmap _fp i n k ile = Ret (k', e) -> k <= k'.
Proof.
  induction n as [|n IH]; intros k ile k' e; cbn [for_k];
    destruct (shape_getitem _bitmap 1) as [w| |]; cbn [bind];
      try discriminate;
    destruct (py_mod i w) as [c| |]; cbn [bind]; try discriminate;
    (destruct (w <=? c + k); [intros H; injection H as <- _; lia|]);
    destruct (getitem _fp (i + k)) as [a| |]; cbn [bind]; try discriminate;
    destruct (getitem _fp i) as [b| |]; cbn [bind]; try discriminate;
    (destruct (negb (a =? b)%Z); [intros H; injection H as <- _; lia|]).
  - intros H; injection H as <- _; lia.
  - intros H. apply IH in H. lia.
Qed.

Lemma while_body_advances (_bitmap : ndarray) (_fp : list Z) (st st' : encoder) :
  while_body _bitmap _fp st = Ret st' -> enc_i st < enc_i st'.
Proof.
  unfold while_body.
  destruct (for_k _ _ _ _ _ _) as [[k e]| |] eqn:Hfor; cbn [bind];
    try discriminate.
  apply for_k_advances in Hfor.
  destruct (getitem _ _) as [v| |]; cbn [bind]; try discriminate.
  destruct (run_code v k) as [code| |]; cbn [bind]; try discriminate.
  destruct e; intros H; injection H as <-; cbn [enc_i]; lia.
Qed.

Lemma for_k_no_fuel (_bitmap : ndarray) (_fp : list Z) (i n : nat) :
  forall k ile, for_k _bitmap _fp i n k ile <> OutOfFuel.
Proof.
  induction n as [|n IH]; intros k ile; cbn [for_k];
    (destruct (shape_getitem _bitmap 1) as [w| |] eqn:Hw; cbn [bind];
       [|discriminate|unfold shape_getitem in Hw;
                       destruct (nth_error _ _); discriminate]);
    unfold py_mod; (destruct (w =? 0); cbn [bind]; [discriminate|]);
    (destruct (w <=? _); [discriminate|]);
    unfold getitem;
    (destruct (nth_error _fp (i + k)); cbn [bind]; [|discriminate]);
    (destruct (nth_error _fp i); cbn [bind]; [|discriminate]);
    (destruct (negb _); [discriminate|]).
  - discriminate.
  - apply IH.
Qed.

Lemma run_code_no_fuel (v : Z) (k : nat) : run_code v k <> OutOfFuel.
Proof.
  unfold run_code, bytearray.
  repeat match goal with
         | |- context [if ?c then _ else _] => destruct c
         end; discriminate.
Qed.

Lemma while_body_no_fuel (_bitmap : ndarray) (_fp : list Z) (st : encoder) :
  while_body _bitmap _fp st <> OutOfFuel.
Proof.
  unfold while_body.
  pose proof (for_k_no_fuel _bitmap _fp (enc_i st) (max_run - 1) 1
                (enc_insert_line_end st)) as Hfor.
  destruct (for_k _ _ _ _ _ _) as [[k e]| |]; cbn [bind];
    [|discriminate|congruence].
  unfold getitem. destruct (nth_error _ _) as [v|]; cbn [bind];
    [|discriminate].
  pose proof (run_code_no_fuel v k) as Hcode.
  destruct (run_code v k); cbn [bind]; [|discriminate|congruence].
  destruct e; discriminate.
Qed.

Lemma while_loop_fuel (_bitmap : ndarray) (_fp : list Z) (fuel : nat) :
  forall st,
    length _fp - enc_i st <= fuel ->
    while_loop fuel _bitmap _fp st <> OutOfFuel.
Proof.
  induction fuel as [|fuel IH]; intros st Hfuel; cbn [while_loop];
    destruct (Nat.ltb_spec (enc_i st) (length _fp)) as [Hlt|Hge];
    try discriminate; try lia.
  pose proof (while_body_no_fuel _bitmap _fp st) as Hno.
  destruct (while_body _bitmap _fp st) as [st'| |] eqn:Hbody; cbn [bind];
    [|discriminate|congruence].
  apply IH. apply while_body_advances in Hbody. lia.
Qed.

Theorem encode_rle_terminates (bitmap : ndarray) :
  encode_rle bitmap <> OutOfFuel.
Proof.
  unfold encode_rle. apply while_loop_fuel. cbn [enc_i]. lia.
Qed.

(** ** Lists *)

Lemma skipn_nth_error (l : list Z) (i : nat) (v : Z) :
  nth_error l i = Some v -> skipn i l = v :: skipn (S i) l.
Proof.
  revert i. induction l as [|x l IH]; intros [|i] H; try discriminate.
  - injection H as ->. reflexivity.
  - apply IH in H. exact H.
Qed.

Lemma skipn_run (l : list Z) (v : Z) (k i : nat) :
  (forall j, j < k -> nth_error l (i + j) = Some v) ->
  skipn i l = repeat v k ++ skipn (i + k) l.
Proof.
  revert i. induction k as [|k IH]; intros i H.
  - rewrite Nat.add_0_r. reflexivity.
  - rewrite (@skipn_nth_error l i v).
    + cbn [repeat app]. f_equal.
      replace (i + S k) with (S i + k) by lia.
      apply IH. intros j Hj.
      replace (S i + j) with (i + S j) by lia. apply H. lia.
    + rewrite <- (H 0) by lia. rewrite Nat.add_0_r. reflexivity.
Qed.

Lemma rows_cons (n w : nat) (row rest : list Z) :
  length row = w -> rows (S n) w (row ++ rest) = row :: rows n w rest.
Proof.
  intros <-. cbn [rows]. f_equal.
  - rewrite firstn_app, Nat.sub_diag, firstn_all, firstn_O, app_nil_r.
    reflexivity.
  - rewrite skipn_app, Nat.sub_diag, skipn_all, skipn_O. reflexivity.
Qed.

Lemma run_pixels (l : list Z) (v : Z) (k i : nat) :
  (forall j, j < k -> nth_error l (i + j) = Some v) ->
  firstn k (skipn i l) = repeat v k.
Proof.
  intros H. rewrite (@skipn_run l v k i H).
  rewrite firstn_app, repeat_length, Nat.sub_diag, firstn_O, app_nil_r.
  apply firstn_all2. rewrite repeat_length. lia.
Qed.

Lemma run_pixel (l : list Z) (v : Z) (k i j : nat) :
  firstn k (skipn i l) = repeat v k -> j < k ->
  nth_error l (i + j) = Some v.
Proof.
  intros H Hj. rewrite <- nth_error_skipn.
  assert (Hn : nth_error (firstn k (skipn i l)) j = Some v)
    by (rewrite H; apply nth_error_repeat; exact Hj).
  rewrite nth_error_firstn in Hn.
  destruct (Nat.ltb_spec j k); [exact Hn | lia].
Qed.

Lemma skipn_is_run (l : list Z) (v : Z) (k i : nat) :
  firstn k (skipn i l) = repeat v k ->
  skipn i l = repeat v k ++ skipn (i + k) l.
Proof.
  intros H. rewrite <- H, Nat.add_comm, <- skipn_skipn.
  symmetry. apply firstn_skipn.
Qed.

(** The run at a position is unique. *)
Lemma is_run_unique (_fp : list Z) (w i : nat) (v : Z) (k k' : nat)
    (e e' : bool) :
  is_run _fp w i v k e -> is_run _fp w i v k' e' -> k = k' /\ e = e'.
Proof.
  intros (Hk & Hrun & Hend) (Hk' & Hrun' & Hend').
  assert (Hlt : forall a b ea eb,
             firstn b (skipn i _fp) = repeat v b ->
             run_stops _fp w i v a ea -> run_stops _fp w i v b eb ->
             b <= max_run -> a < b -> False).
  { intros a b ea eb Hb Ha Hbe Hbm Hab.
    unfold run_stops in *.
    assert (i mod w + b <= w) by (destruct eb; lia).
    destruct ea; [lia|].
    destruct Ha as (_ & [Ha | Hne]); [lia|].
    apply Hne. apply (run_pixel _ _ _ _ _ Hb Hab). }
  assert (k = k').
  { destruct (Nat.lt_trichotomy k k') as [H | [H | H]]; [|exact H|].
    - exfalso. apply (Hlt k k' e e'); auto; lia.
    - exfalso. apply (Hlt k' k e' e); auto; lia. }
  subst k'. split; [reflexivity|].
  unfold run_stops in *. destruct e, e'; try reflexivity; lia.
Qed.

Section EncoderPass.

Variable _bitmap : ndarray.
Variable _fp : list Z.
Variables h w : nat.

Hypothesis shape_1 : shape_getitem _bitmap 1 = Ret w.
Hypothesis w_pos : 0 < w.
Hypothesis size_fp : length _fp = h * w.

Lemma row_in_bounds (i j : nat) :
  i < length _fp -> i mod w + j <= w -> i + j <= length _fp.
Proof.
  intros Hi Hj. rewrite size_fp in *.
  pose proof (Nat.div_mod_eq i w) as Hdm.
  assert (i / w < h) by (apply Nat.Div0.div_lt_upper_bound; lia).
  nia.
Qed.

Lemma py_mod_w (i : nat) : py_mod i w = Ret (i mod w).
Proof.
  unfold py_mod. destruct (Nat.eqb_spec w 0); [lia | reflexivity].
Qed.

(** The [for] loop from the value [k] on, the pixels before it known to be
    those of the run. *)
Lemma for_k_spec (i : nat) (v : Z) (ile : bool) :
  i < length _fp -> nth_error _fp i = Some v ->
  forall n k,
    1 <= k -> i mod w + k <= w ->
    (forall j, j < k -> nth_error _fp (i + j) = Some v) ->
    exists k' e,
      for_k _bitmap _fp i n k ile = Ret (k', e || ile) /\
      k <= k' <= k + n /\
      (forall j, j < k' -> nth_error _fp (i + j) = Some v) /\
      (if e then i mod w + k' = w
       else i mod w + k' < w /\
            (k' = k + n \/
             exists v', nth_error _fp (i + k') = Some v' /\ v' <> v)).
Proof.
  intros Hi Hv. induction n as [|n IH]; intros k Hk Hrow Hrun.
  - cbn [for_k]. rewrite shape_1. cbn [bind]. rewrite py_mod_w. cbn [bind].
    destruct (Nat.leb_spec w (i mod w + k)) as [Hend|Hin].
    + exists k, true. repeat split; try lia; auto.
    + assert (Hb : i + k < length _fp)
        by (pose proof (@row_in_bounds i (S k) Hi); lia).
      unfold getitem.
      destruct (nth_error _fp (i + k)) as [a|] eqn:Ha;
        [|apply nth_error_None in Ha; lia].
      rewrite Hv. cbn [bind].
      exists k, false. cbn [orb].
      destruct (Z.eqb_spec a v) as [->|Hne]; cbn [negb];
        (split; [reflexivity|]); repeat split; try lia; auto.
  - cbn [for_k]. rewrite shape_1. cbn [bind]. rewrite py_mod_w. cbn [bind].
    destruct (Nat.leb_spec w (i mod w + k)) as [Hend|Hin].
    + exists k, true. repeat split; try lia; auto.
    + assert (Hb : i + k < length _fp)
        by (pose proof (@row_in_bounds i (S k) Hi); lia).
      unfold getitem.
      destruct (nth_error _fp (i + k)) as [a|] eqn:Ha;
        [|apply nth_error_None in Ha; lia].
      rewrite Hv. cbn [bind].
      destruct (Z.eqb_spec a v) as [->|Hne]; cbn [negb].
      * destruct (IH (S k)) as (k' & e & Hfor & Hk' & Hrun' & Hend); try lia.
        { intros j Hj. destruct (Nat.eq_dec j k) as [->|]; [exact Ha|].
          apply Hrun. lia. }
        exists k', e. split; [exact Hfor|]. repeat split; try lia; auto.
        destruct e; [exact Hend|].
        destruct Hend as (? & [?|?]); split; auto. left. lia.
      * exists k, false. cbn [orb]. split; [reflexivity|].
        repeat split; try lia; auto. right. exists a. auto.
Qed.

(** The [for] loop finds the run at [i]. *)
Lemma for_k_finds_run (i : nat) (v : Z) (ile : bool) :
  i < length _fp -> nth_error _fp i = Some v ->
  exists k e,
    for_k _bitmap _fp i (max_run - 1) 1 ile = Ret (k, e || ile) /\
    is_run _fp w i v k e.
Proof.
  intros Hi Hv.
  destruct (@for_k_spec i v ile Hi Hv (max_run - 1) 1)
    as (k & e & Hfor & Hk & Hrun & Hend).
  - lia.
  - pose proof (Nat.mod_upper_bound i w). lia.
  - intros j Hj. replace j with 0 by lia. rewrite Nat.add_0_r. exact Hv.
  - exists k, e. split; [exact Hfor|].
    pose proof max_run_Z as HM.
    split; [lia|]. split; [apply run_pixels; exact Hrun|].
    unfold run_stops. destruct e; [exact Hend|].
    destruct Hend as (? & [?|(v' & Hv' & Hne)]); split; auto.
    right. rewrite Hv'. congruence.
Qed.

(** One pass of the [while] loop, for the run at [i]. *)
Lemma while_body_run (i : nat) (v : Z) (k : nat) (e : bool) (rle : list Z) :
  i < length _fp -> is_run _fp w i v k e ->
  while_body _bitmap _fp (mk_encoder i false rle)
  = (code <- run_code v k ;;
     Ret (mk_encoder (i + k) false (rle ++ code ++ line_end e))).
Proof.
  intros Hi Hrun.
  assert (Hv : nth_error _fp i = Some v).
  { destruct Hrun as (Hk & Hr & _).
    rewrite <- (Nat.add_0_r i). apply (run_pixel _ _ _ _ _ Hr). lia. }
  destruct (@for_k_finds_run i v false Hi Hv) as (k' & e' & Hfor & Hrun').
  destruct (is_run_unique _ _ _ _ _ _ _ _ Hrun Hrun') as [<- <-].
  unfold while_body. cbn [enc_i enc_insert_line_end enc_rle_data].
  rewrite Hfor. cbn [bind]. unfold getitem. rewrite Hv. cbn [bind].
  destruct (run_code v k) as [code| |]; cbn [bind]; try reflexivity.
  rewrite orb_false_r.
  destruct e; cbn [line_end].
  - rewrite app_assoc. reflexivity.
  - rewrite app_nil_r. reflexivity.
Qed.

(** The position after a run that ends its row, and after one that does
    not. *)
Lemma next_row (i k : nat) :
  i mod w + k = w -> (i + k) mod w = 0 /\ (i + k) / w = S (i / w).
Proof.
  intros H. pose proof (Nat.div_mod_eq i w) as Hdm.
  split; symmetry.
  - apply Nat.mod_unique with (q := S (i / w)); nia.
  - apply Nat.div_unique with (r := 0); nia.
Qed.

Lemma same_row (i k : nat) :
  i mod w + k < w -> (i + k) mod w = i mod w + k /\ (i + k) / w = i / w.
Proof.
  intros H. pose proof (Nat.div_mod_eq i w) as Hdm.
  split; symmetry.
  - apply Nat.mod_unique with (q := i / w); nia.
  - apply Nat.div_unique with (r := i mod w + k); nia.
Qed.

Lemma row_index (i : nat) : i < length _fp -> i / w < h.
Proof.
  intros Hi. rewrite size_fp in Hi.
  apply Nat.Div0.div_lt_upper_bound. lia.
Qed.

Hypothesis bytes_fp : Forall is_byte _fp.

(** The [while] loop from position [i] on, seen through the decoder: if the
    bytes written so far leave the decoder with the rows [P] closed and the
    row [L] open, the bytes written in the end leave it with all the rows of
    the bitmap closed and no row open. *)
Lemma while_loop_decodes (st0 : decoder) (fuel : nat) :
  forall i rle P L t,
    i <= length _fp -> length _fp - i <= fuel ->
    length L = i mod w ->
    for_byte st0 rle = Ret (mk_decoder P L NEW_CODE t) ->
    exists out t',
      while_loop fuel _bitmap _fp (mk_encoder i false rle) = Ret out /\
      for_byte st0 out
      = Ret (mk_decoder (P ++ rows (h - i / w) w (L ++ skipn i _fp)) []
               NEW_CODE t').
Proof.
  induction fuel as [|fuel IH]; intros i rle P L t Hi Hfuel HL Hdec.
  - assert (i = length _fp) by lia. subst i.
    cbn [while_loop enc_i enc_rle_data]. rewrite Nat.ltb_irrefl.
    exists rle, t. split; [reflexivity|].
    rewrite Hdec. rewrite size_fp, Nat.div_mul, Nat.sub_diag by lia.
    rewrite size_fp, Nat.Div0.mod_mul in HL.
    apply length_zero_iff_nil in HL. subst L.
    cbn [rows]. rewrite app_nil_r. reflexivity.
  - cbn [while_loop enc_i enc_rle_data].
    destruct (Nat.ltb_spec i (length _fp)) as [Hlt|Hge].
    + destruct (nth_error _fp i) as [v|] eqn:Hv;
        [|apply nth_error_None in Hv; lia].
      assert (Hbyte : is_byte v).
      { rewrite Forall_forall in bytes_fp. apply bytes_fp.
        eapply nth_error_In. exact Hv. }
      destruct (@for_k_finds_run i v false Hlt Hv) as (k & e & _ & Hrun).
      rewrite (@while_body_run i v k e rle Hlt Hrun).
      destruct Hrun as (Hk & Hpix & Hstop).
      destruct (@run_code_decodes v k Hbyte Hk) as (code & -> & Hcode).
      cbn [bind].
      destruct (Hcode P L t) as (t1 & Hdec1).
      assert (Hrow : i mod w + k <= w)
        by (unfold run_stops in Hstop; destruct e; lia).
      pose proof (@row_in_bounds i k Hlt Hrow) as Hik.
      pose proof (@row_index i Hlt) as Hq.
      rewrite (@skipn_is_run _fp v k i Hpix).
      destruct e; unfold run_stops in Hstop; cbn [line_end].
      * destruct (@next_row i k Hstop) as [Hm Hd].
        destruct (IH (i + k) (rle ++ code ++ [0; 0]%Z)
                    (P ++ [L ++ repeat v k]) [] t1) as (out & t' & Hw & Ho);
          try lia.
        { rewrite Hm. reflexivity. }
        { rewrite for_byte_app, Hdec. cbn [bind].
          rewrite for_byte_app, Hdec1. cbn [bind]. reflexivity. }
        exists out, t'. split; [exact Hw|]. rewrite Ho.
        rewrite Hd. replace (h - i / w) with (S (h - S (i / w))) by lia.
        rewrite app_assoc, rows_cons
          by (rewrite length_app, repeat_length; lia).
        rewrite <- app_assoc. reflexivity.
      * destruct Hstop as [Hstop _].
        destruct (@same_row i k Hstop) as [Hm Hd].
        destruct (IH (i + k) (rle ++ code ++ [])
                    P (L ++ repeat v k) t1) as (out & t' & Hw & Ho);
          try lia.
        { rewrite length_app, repeat_length, Hm. lia. }
        { rewrite app_nil_r, for_byte_app, Hdec. cbn [bind]. exact Hdec1. }
        exists out, t'. split; [exact Hw|]. rewrite Ho.
        rewrite Hd, <- app_assoc. reflexivity.
    + assert (i = length _fp) by lia. subst i.
      exists rle, t. split; [reflexivity|].
      rewrite Hdec. rewrite size_fp, Nat.div_mul, Nat.sub_diag by lia.
      rewrite size_fp, Nat.Div0.mod_mul in HL.
      apply length_zero_iff_nil in HL. subst L.
      cbn [rows]. rewrite app_nil_r. reflexivity.
Qed.

(** The loop gets to the first pixel of every run, that is to every pixel
    that begins a row or differs from the pixel before it. *)
Lemma reaches_run_start (s : nat) (v : Z) :
  s < length _fp -> nth_error _fp s = Some v ->
  s mod w = 0 \/ nth_error _fp (s - 1) <> Some v ->
  exists rle, reaches _bitmap _fp (mk_encoder s false rle).
Proof.
  intros Hs Hv Hstart.
  assert (H : forall d st, reaches _bitmap _fp st -> enc_i st + d = s ->
                           exists rle, reaches _bitmap _fp (mk_encoder s false rle)).
  { induction d as [d IH] using lt_wf_ind. intros st Hreach Hd.
    pose proof (reaches_flag _ _ _ Hreach) as Hflag.
    destruct st as [p flag rle]. cbn [enc_i enc_insert_line_end] in *.
    subst flag.
    destruct d as [|d'].
    - exists rle. rewrite Nat.add_0_r in Hd. subst p. exact Hreach.
    - assert (Hp : p < length _fp) by lia.
      destruct (nth_error _fp p) as [u|] eqn:Hu;
        [|apply nth_error_None in Hu; lia].
      assert (Hbyte : is_byte u).
      { rewrite Forall_forall in bytes_fp. apply bytes_fp.
        eapply nth_error_In. exact Hu. }
      destruct (for_k_finds_run p u false Hp Hu) as (k & e & _ & Hrun).
      pose proof (while_body_run p u k e rle Hp Hrun) as Hbody.
      pose proof Hrun as (Hk & Hpix & Hstop).
      destruct (run_code_decodes u k Hbyte Hk) as (code & Hcode & _).
      rewrite Hcode in Hbody. cbn [bind] in Hbody.
      assert (Hrow : p mod w + k <= w)
        by (unfold run_stops in Hstop; destruct e; lia).
      assert (Hkd : k <= S d').
      { destruct (Nat.le_gt_cases k (S d')) as [|Hgt]; [assumption|].
        exfalso.
        pose proof (run_pixel _ _ _ _ (S d') Hpix Hgt) as Hs1.
        pose proof (run_pixel _ _ _ _ d' Hpix ltac:(lia)) as Hs0.
        rewrite Hd, Hv in Hs1. injection Hs1 as <-.
        destruct Hstart as [Hmod | Hprev].
        - destruct (same_row p (S d') ltac:(lia)) as [Hm _].
          rewrite Hd in Hm. lia.
        - apply Hprev. rewrite <- Hs0. f_equal. lia. }
      apply (IH (S d' - k) ltac:(lia)
               (mk_encoder (p + k) false (rle ++ code ++ line_end e))).
      + apply (reaches_pass _ _ _ _ Hreach Hp Hbody).
      + cbn [enc_i]. lia. }
  apply (H s (mk_encoder 0 false [])); [constructor | reflexivity].
Qed.

End EncoderPass.

(** ** The encoder and the decoder together *)

(** Rows of one length make an array. *)
Lemma asarray_Ret (plane : list (list Z)) (w : nat) :
  Forall (fun row => length row = w) plane -> asarray plane = Ret plane.
Proof.
  intros H. unfold asarray.
  replace (same_lengths plane) with true; [reflexivity|].
  symmetry. destruct H as [|row rest Hrow Hrest]; [reflexivity|].
  cbn [same_lengths]. apply forallb_forall. intros r Hr.
  rewrite Forall_forall in Hrest. apply Nat.eqb_eq.
  rewrite (Hrest r Hr). symmetry. exact Hrow.
Qed.

Lemma asarray_inv (plane out : list (list Z)) :
  asarray plane = Ret out ->
  out = plane /\ exists w, Forall (fun row => length row = w) plane.
Proof.
  unfold asarray. destruct (same_lengths plane) eqn:Hsame; [|discriminate].
  intros H. injection H as <-. split; [reflexivity|].
  destruct plane as [|row rest]; [exists 0; constructor|].
  exists (length row). constructor; [reflexivity|].
  cbn [same_lengths] in Hsame. rewrite forallb_forall in Hsame.
  apply Forall_forall. intros r Hr. apply Nat.eqb_eq. apply Hsame. exact Hr.
Qed.

Lemma rows_lengths (h w : nat) :
  forall l, length l = h * w ->
            Forall (fun row => length row = w) (rows h w l).
Proof.
  induction h as [|h IH]; intros l Hl; cbn [rows]; constructor.
  - rewrite length_firstn. lia.
  - apply IH. rewrite length_skipn. lia.
Qed.

Lemma squeeze_2d (bitmap : ndarray) (h w : nat) :
  shape bitmap = [h; w] -> 2 <= h -> 2 <= w ->
  shape_getitem (squeeze bitmap) 1 = Ret w.
Proof.
  intros Hs Hh Hw. unfold shape_getitem, squeeze. cbn [shape]. rewrite Hs.
  cbn [filter].
  destruct (Nat.eqb_spec h 1); [lia|].
  destruct (Nat.eqb_spec w 1); [lia|]. reflexivity.
Qed.

(** Round trip: a bitmap of at least two rows and two columns whose values
    are bytes is encoded without an error, and decoding the bytes gives its
    rows back.  The width is not bounded: a run longer than the longest code
    is written as several codes. *)
Theorem decode_encode_rle (bitmap : ndarray) (h w : nat) :
  shape bitmap = [h; w] -> 2 <= h -> 2 <= w ->
  size bitmap = h * w ->
  Forall is_byte (ravel bitmap) ->
  exists data,
    encode_rle bitmap = Ret data /\
    decode_rle (Bytes data) None = Ret (tolist bitmap).
Proof.
  intros Hs Hh Hw Hsize Hbytes.
  pose proof (squeeze_2d bitmap h w Hs Hh Hw) as Hshape.
  destruct (while_loop_decodes (squeeze bitmap) (ravel bitmap) h w
              Hshape ltac:(lia) Hsize Hbytes
              (mk_decoder [] [] NEW_CODE 0) (length (ravel bitmap))
              0 [] [] [] 0%Z)
    as (data & t' & Henc & Hdec).
  - lia.
  - lia.
  - rewrite Nat.Div0.mod_0_l. reflexivity.
  - reflexivity.
  - exists data. split; [exact Henc|].
    unfold decode_rle, payload. rewrite Hdec. cbn [bind plane2d].
    unfold tolist. rewrite Hs.
    rewrite Nat.Div0.div_0_l, Nat.sub_0_r. cbn [app skipn].
    apply (asarray_Ret _ w). apply rows_lengths. exact Hsize.
Qed.

(** A bitmap with a single row or a single column loses that axis in
    [np.squeeze], and the first look at [_bitmap.shape[1]] fails. *)
Lemma encode_rle_squeezed (bitmap : ndarray) (h w : nat) :
  shape bitmap = [h; w] -> h = 1 \/ w = 1 -> ravel bitmap <> [] ->
  encode_rle bitmap = Raise IndexError.
Proof.
  intros Hs Hone Hne.
  assert (Hshape : shape_getitem (squeeze bitmap) 1 = Raise IndexError).
  { unfold shape_getitem, squeeze. cbn [shape]. rewrite Hs. cbn [filter].
    destruct (Nat.eqb_spec h 1), (Nat.eqb_spec w 1); try lia; reflexivity. }
  unfold encode_rle. cbn [squeeze ravel].
  destruct (ravel bitmap) as [|x l] eqn:Hr; [congruence|].
  cbn [length while_loop enc_i]. cbn [Nat.ltb Nat.leb].
  unfold while_body. cbn [enc_i enc_insert_line_end].
  destruct (max_run - 1); cbn [for_k]; rewrite Hshape; reflexivity.
Qed.

(** A run that begins a row or follows a pixel of another value is written
    as its code, followed by the end of the line when it ends the row. *)
Lemma run_emitted (bitmap : ndarray) (h w i : nat) (v : Z) (k : nat)
    (at_end : bool) (code : list Z) :
  shape bitmap = [h; w] -> 2 <= h -> 2 <= w ->
  size bitmap = h * w -> Forall is_byte (ravel bitmap) ->
  is_run (ravel bitmap) w i v k at_end ->
  i mod w = 0 \/ nth_error (ravel bitmap) (i - 1) <> Some v ->
  run_code v k = Ret code ->
  emits bitmap i k (code ++ line_end at_end).
Proof.
  intros Hs Hh Hw Hsize Hbytes Hrun Hstart Hcode.
  pose proof (squeeze_2d bitmap h w Hs Hh Hw) as Hshape.
  assert (Hw0 : 0 < w) by lia.
  assert (Hv : nth_error (ravel bitmap) i = Some v).
  { destruct Hrun as (Hk & Hr & _).
    rewrite <- (Nat.add_0_r i). apply (run_pixel _ _ _ _ _ Hr). lia. }
  assert (Hi : i < length (ravel bitmap))
    by (apply nth_error_Some; congruence).
  destruct (reaches_run_start (squeeze bitmap) (ravel bitmap) h w Hshape Hw0
              Hsize Hbytes i v Hi Hv Hstart) as (before & Hreach).
  pose proof (while_body_run (squeeze bitmap) (ravel bitmap) h w Hshape Hw0
                Hsize i v k at_end before Hi Hrun) as Hbody.
  rewrite Hcode in Hbody. cbn [bind] in Hbody.
  destruct (decode_encode_rle bitmap h w Hs Hh Hw Hsize Hbytes)
    as (data & Henc & _).
  pose proof Henc as Hloop. unfold encode_rle in Hloop.
  destruct (reaches_prefix _ _ _ _ _ Hloop
              (reaches_pass _ _ _ _ Hreach Hi Hbody)) as (after & Hdata).
  cbn [enc_rle_data] in Hdata.
  exists before, after. split; [exact Hreach|]. split; [exact Hbody|].
  rewrite Henc, Hdata, <- !app_assoc. reflexivity.
Qed.

(** ** Claims *)

(** C1 (round-trip identity), evaluated where the code departs from it: the
    bitmap of one row [[7, 7, 7]] is a bitmap of bytes with a positive
    height and a positive width below 16383, and [encode_rle] raises
    [IndexError] on it, so that nothing is there to decode.  For bitmaps of
    at least two rows and two columns the identity is [decode_encode_rle]. *)
Theorem roundtrip_fails_on_single_row :
  let B := mk_ndarray uint8 [1; 3] [7; 7; 7]%Z in
  ndarray_ok B /\
  encode_rle B = Raise IndexError /\
  (data <- encode_rle B ;; decode_rle (Bytes data) None) <> Ret (tolist B).
Proof.
  cbv zeta. split; [|split].
  - split; [reflexivity|].
    repeat constructor; cbn; lia.
  - vm_compute. reflexivity.
  - vm_compute. discriminate.
Qed.




(** *** Bitmaps of one value *)

Section Uniform.

Variable v : Z.
Variables h w : nat.
Variable code : list Z.

Hypothesis w_run : 2 <= w <= max_run.
Hypothesis code_w : run_code v w = Ret code.

Lemma uniform_row_is_run (r : nat) :
  r < h -> is_run (repeat v (h * w)) w (r * w) v w true.
Proof.
  intros Hr. split; [lia|]. split.
  - apply run_pixels. intros j Hj. apply nth_error_repeat. nia.
  - unfold run_stops. rewrite Nat.Div0.mod_mul. reflexivity.
Qed.

Lemma while_loop_uniform (_bitmap : ndarray) :
  shape_getitem _bitmap 1 = Ret w ->
  forall n r fuel rle,
    r + n = h -> n <= fuel ->
    while_loop fuel _bitmap (repeat v (h * w)) (mk_encoder (r * w) false rle)
    = Ret (rle ++ concat (repeat (code ++ [0; 0]%Z) n)).
Proof.
  intros Hshape. induction n as [|n IH]; intros r fuel rle Hr Hfuel.
  - assert (r = h) by lia. subst r.
    destruct fuel; cbn [while_loop enc_i enc_rle_data];
      rewrite repeat_length, Nat.ltb_irrefl; cbn [repeat concat];
      rewrite app_nil_r; reflexivity.
  - destruct fuel as [|fuel]; [lia|].
    cbn [while_loop enc_i enc_rle_data]. rewrite repeat_length.
    assert (Hlt : r * w < h * w) by nia.
    destruct (Nat.ltb_spec (r * w) (h * w)) as [_|]; [|lia].
    rewrite (while_body_run _bitmap (repeat v (h * w)) h w Hshape
               ltac:(lia) (repeat_length v (h * w)) (r * w) v w true rle).
    + rewrite code_w. cbn [bind line_end].
      replace (r * w + w) with (S r * w) by lia.
      rewrite (IH (S r) fuel) by lia.
      cbn [repeat concat]. rewrite <- !app_assoc. reflexivity.
    + rewrite repeat_length. exact Hlt.
    + apply uniform_row_is_run. lia.
Qed.

(** Every row of a bitmap of one value is written as the code of one run of
    the width of the bitmap, then the end of the line. *)
Lemma encode_rle_uniform :
  2 <= h ->
  encode_rle (mk_ndarray uint8 [h; w] (repeat v (h * w)))
  = Ret (concat (repeat (code ++ [0; 0]%Z) h)).
Proof.
  intros Hh. unfold encode_rle. cbn [squeeze ravel].
  rewrite repeat_length.
  change 0 with (0 * w) at 1.
  apply (while_loop_uniform _
           (squeeze_2d (mk_ndarray uint8 [h; w] (repeat v (h * w))) h w
              eq_refl Hh (proj1 w_run))
           h 0 (h * w) []).
  - reflexivity.
  - nia.
Qed.

End Uniform.

(** C3, refuted as stated: the code of a run of 70 pixels of value 5 has
    four bytes, not the five of the claim (and the encoder returns no bytes
    at all for the bitmap of one row). *)
Lemma long_color_code_has_four_bytes :
  run_code 5 70 = Ret [0x00; 0xC0; 0x46; 0x05]%Z /\
  encode_rle (mk_ndarray uint8 [1; 70] (repeat 5%Z 70))
  <> Ret ([0x00; 0xC0; 0x00; 0x46; 0x05] ++ [0x00; 0x00])%Z.
Proof.
  split.
  - vm_compute. reflexivity.
  - vm_compute. discriminate.
Qed.

(** C3, amended: in a bitmap of two rows or more, every row of 70 pixels of
    value 5 is written as [0x00 0xC0 0x46 0x05] followed by the end of the
    line [0x00 0x00], and those six bytes decode to one row of 70 pixels of
    value 5. *)
Theorem long_color_run_example (h : nat) :
  2 <= h ->
  encode_rle (mk_ndarray uint8 [h; 70] (repeat 5%Z (h * 70)))
  = Ret (concat (repeat ([0x00; 0xC0; 0x46; 0x05] ++ [0x00; 0x00])%Z h)) /\
  decode_rle (Bytes ([0x00; 0xC0; 0x46; 0x05] ++ [0x00; 0x00])%Z) None
  = Ret [repeat 5%Z 70].
Proof.
  intros Hh. split.
  - apply encode_rle_uniform.
    + pose proof max_run_Z. lia.
    + vm_compute. reflexivity.
    + exact Hh.
  - vm_compute. reflexivity.
Qed.

Lemma long_color_run_example_witness :
  encode_rle (mk_ndarray uint8 [2; 70] (repeat 5%Z (2 * 70)))
  = Ret (concat (repeat ([0x00; 0xC0; 0x46; 0x05] ++ [0x00; 0x00])%Z 2)) /\
  decode_rle (Bytes ([0x00; 0xC0; 0x46; 0x05] ++ [0x00; 0x00])%Z) None
  = Ret [repeat 5%Z 70].
Proof.
  apply (long_color_run_example 2). lia.
Defined.

(** C4, evaluated where the code departs from it: [encode_rle] raises
    [IndexError] on the bitmap of one row [[0, 0, 0, 0]].  The bytes of the
    claim are those the encoder writes for such a row in a bitmap of two
    rows, and they decode to the row. *)
Theorem transparent_row_example_raises :
  encode_rle (mk_ndarray uint8 [1; 4] [0; 0; 0; 0]%Z) = Raise IndexError /\
  encode_rle (mk_ndarray uint8 [2; 4] [0; 0; 0; 0; 0; 0; 0; 0]%Z)
  = Ret ([0x00; 0x04; 0x00; 0x00] ++ [0x00; 0x04; 0x00; 0x00])%Z /\
  decode_rle (Bytes [0x00; 0x04; 0x00; 0x00]%Z) None = Ret [[0; 0; 0; 0]%Z].
Proof.
  repeat split; vm_compute; reflexivity.
Qed.

(** *** The codes of the runs *)

(** In a bitmap of two rows and two columns or more, a run of exactly 63
    pixels inside a row is written as the short
    code, [0x00, 0x80|63, value] for a colour and [0x00, 63] for transparent
    pixels; a run of exactly 64 pixels is written as the long code,
    [0x00, 0xC0|(64>>8), 64&0xFF, value] for a colour and
    [0x00, 0x40|(64>>8), 64&0xFF] for transparent pixels (followed by the
    end of the line when the run ends the row). *)
Theorem run_length_boundary (bitmap : ndarray) (h w i : nat) (v : Z)
    (k : nat) (at_end : bool) :
  shape bitmap = [h; w] -> 2 <= h -> 2 <= w ->
  size bitmap = h * w -> Forall is_byte (ravel bitmap) ->
  is_run (ravel bitmap) w i v k at_end ->
  i mod w = 0 \/ nth_error (ravel bitmap) (i - 1) <> Some v ->
  (k = 63 ->
   emits bitmap i 63
     ((if (v =? 0)%Z then [0x00; 63] else [0x00; Z.lor 0x80 63; v])%Z
      ++ line_end at_end)) /\
  (k = 64 ->
   emits bitmap i 64
     ((if (v =? 0)%Z
       then [0x00; Z.lor 0x40 (Z.shiftr 64 8); Z.land 64 0xFF]
       else [0x00; Z.lor 0xC0 (Z.shiftr 64 8); Z.land 64 0xFF; v])%Z
      ++ line_end at_end)).
Proof.
  intros Hs Hh Hw Hsize Hbytes Hrun Hstart.
  assert (Hv : is_byte v).
  { destruct Hrun as (Hk & Hr & _).
    rewrite Forall_forall in Hbytes. apply Hbytes.
    apply (nth_error_In _ (i + 0)). apply (run_pixel _ _ _ _ _ Hr). lia. }
  unfold is_byte in Hv.
  split; intros ->;
    apply (run_emitted bitmap h w i v _ at_end _ Hs Hh Hw Hsize Hbytes
             Hrun Hstart);
    unfold run_code;
    destruct (Z.eqb_spec v 0) as [->|Hv0]; cbn [negb Nat.ltb Nat.leb];
    (rewrite bytearray_Ret;
     [reflexivity | repeat constructor; unfold is_byte; cbn; lia]).
Qed.

Lemma run_length_boundary_witness :
  emits boundary_bitmap 0 63 [0x00; 0xBF; 0x05]%Z /\
  emits boundary_bitmap 63 64 [0x00; 0x40; 0x40; 0x00; 0x00]%Z.
Proof.
  pose proof max_run_Z as HM. split.
  - apply (run_length_boundary boundary_bitmap 2 127 0 5 63 false);
      try reflexivity; try lia.
    + apply forallb_is_byte. reflexivity.
    + split; [lia|]. split; [reflexivity|].
      split; [cbn; lia|]. right. cbn. discriminate.
    + left. reflexivity.
  - apply (run_length_boundary boundary_bitmap 2 127 63 0 64 true);
      try reflexivity; try lia.
    + apply forallb_is_byte. reflexivity.
    + split; [lia|]. split; reflexivity.
    + right. cbn. discriminate.
Defined.

(** *** One pass of the encoder *)

(** In a bitmap of two rows and two columns or more, the run the encoder
    takes at a position never leaves the row of the
    position; when it reaches the last column, its code is followed at once
    by the end of the line [0x00 0x00], and not otherwise; and a run of one
    value up to the last column is taken whole and cut there, and written as
    its code and the end of the line, whatever the next row begins with. *)
Theorem row_boundary_clipping (bitmap : ndarray) (h w i : nat)
    (rle_data : list Z) :
  shape bitmap = [h; w] -> 2 <= h -> 2 <= w ->
  size bitmap = h * w -> Forall is_byte (ravel bitmap) ->
  i < size bitmap ->
  exists v k at_end code,
    nth_error (ravel bitmap) i = Some v /\
    firstn k (skipn i (ravel bitmap)) = repeat v k /\
    run_code v k = Ret code /\
    while_body (squeeze bitmap) (ravel bitmap) (mk_encoder i false rle_data)
    = Ret (mk_encoder (i + k) false (rle_data ++ code ++ line_end at_end)) /\
    i mod w + k <= w /\
    (at_end = true <-> i mod w + k = w) /\
    (forall n, 1 <= n <= max_run -> i mod w + n = w ->
               firstn n (skipn i (ravel bitmap)) = repeat v n ->
               k = n /\ at_end = true /\
               (i mod w = 0 \/ nth_error (ravel bitmap) (i - 1) <> Some v ->
                emits bitmap i n (code ++ [0; 0]%Z))).
Proof.
  intros Hs Hh Hw Hsize Hbytes Hi.
  pose proof (squeeze_2d bitmap h w Hs Hh Hw) as Hshape.
  assert (Hw0 : 0 < w) by lia.
  unfold size in Hi.
  destruct (nth_error (ravel bitmap) i) as [v|] eqn:Hv;
    [|apply nth_error_None in Hv; lia].
  assert (Hbyte : is_byte v).
  { rewrite Forall_forall in Hbytes. apply Hbytes.
    eapply nth_error_In. exact Hv. }
  destruct (for_k_finds_run (squeeze bitmap) (ravel bitmap) h w Hshape Hw0
              Hsize i v false Hi Hv) as (k & e & _ & Hrun).
  pose proof (while_body_run (squeeze bitmap) (ravel bitmap) h w Hshape Hw0
                Hsize i v k e rle_data Hi Hrun) as Hbody.
  pose proof Hrun as (Hk & Hpix & Hstop).
  destruct (run_code_decodes v k Hbyte Hk) as (code & Hcode & _).
  rewrite Hcode in Hbody. cbn [bind] in Hbody.
  exists v, k, e, code.
  split; [reflexivity|]. split; [exact Hpix|]. split; [exact Hcode|].
  split; [exact Hbody|].
  unfold run_stops in Hstop.
  split; [destruct e; lia|].
  split; [destruct e; split; intros; try reflexivity; try discriminate; lia|].
  intros n Hn Hend Hn_pix.
  assert (Hrun_n : is_run (ravel bitmap) w i v n true)
    by (split; [exact Hn|]; split; [exact Hn_pix | exact Hend]).
  destruct (is_run_unique _ _ _ _ _ _ _ _ Hrun Hrun_n) as [-> ->].
  split; [reflexivity|]. split; [reflexivity|].
  intros Hstart.
  apply (run_emitted bitmap h w i v n true code Hs Hh Hw Hsize Hbytes
           Hrun_n Hstart Hcode).
Qed.

Lemma row_boundary_clipping_witness :
  let B := mk_ndarray uint8 [2; 2] [1; 1; 1; 1]%Z in
  while_body (squeeze B) (ravel B) (mk_encoder 0 false [])
  = Ret (mk_encoder 2 false [1; 1; 0; 0]%Z) /\
  emits B 0 2 [1; 1; 0; 0]%Z.
Proof.
  intros B. pose proof max_run_Z as HM.
  destruct (row_boundary_clipping B 2 2 0 [])
    as (v & k & at_end & code & Hv & _ & Hcode & Hbody & _ & _ & Hcut);
    try reflexivity; try lia.
  - apply forallb_is_byte. reflexivity.
  - cbn. lia.
  - injection Hv as <-.
    destruct (Hcut 2) as (-> & -> & Hemits); try reflexivity; try lia.
    vm_compute in Hcode. injection Hcode as <-.
    split; [exact Hbody|]. apply Hemits. left. reflexivity.
Defined.

(** In a bitmap of two rows and two columns or more, a run of one or two
    pixels of a colour is written as that many
    bytes equal to the colour, with no escape byte before them; and the
    decoder that awaits a new code and reads a byte above zero adds one
    pixel of that value to the row and goes on awaiting a new code. *)
Theorem literal_pixels (bitmap : ndarray) (h w i : nat) (v : Z) (k : nat)
    (at_end : bool) (st : decoder) (b : Z) :
  shape bitmap = [h; w] -> 2 <= h -> 2 <= w ->
  size bitmap = h * w -> Forall is_byte (ravel bitmap) ->
  is_run (ravel bitmap) w i v k at_end ->
  i mod w = 0 \/ nth_error (ravel bitmap) (i - 1) <> Some v ->
  v <> 0%Z -> k = 1 \/ k = 2 ->
  decoder_state st = NEW_CODE -> (b > 0)%Z ->
  emits bitmap i k (repeat v k ++ line_end at_end)
  /\ ~ In 0%Z (repeat v k)
  /\ decode_byte st b
     = Ret (mk_decoder (plane2d st) (line_l st ++ [b]) NEW_CODE (tmp st)).
Proof.
  intros Hs Hh Hw Hsize Hbytes Hrun Hstart Hv0 Hk Hst Hb.
  assert (Hv : is_byte v).
  { destruct Hrun as (Hk' & Hr & _).
    rewrite Forall_forall in Hbytes. apply Hbytes.
    apply (nth_error_In _ (i + 0)). apply (run_pixel _ _ _ _ _ Hr). lia. }
  split; [|split].
  - apply (run_emitted bitmap h w i v k at_end _ Hs Hh Hw Hsize Hbytes
             Hrun Hstart).
    unfold run_code. destruct (Z.eqb_spec v 0) as [|_]; [contradiction|].
    cbn [negb].
    destruct (Nat.ltb_spec k 3) as [_|]; [|lia].
    apply bytearray_Ret.
    apply Forall_forall. intros x Hx. apply repeat_spec in Hx. subst x.
    exact Hv.
  - intros Hin. apply repeat_spec in Hin. congruence.
  - unfold decode_byte. rewrite Hst.
    replace (b >? 0)%Z with true by (symmetry; apply Z.gtb_lt; lia).
    reflexivity.
Qed.

Lemma literal_pixels_witness :
  emits (mk_ndarray uint8 [2; 3] [9; 9; 4; 4; 4; 7]%Z) 0 2 [9; 9]%Z
  /\ ~ In 0%Z (repeat 9%Z 2)
  /\ decode_byte (mk_decoder [] [] NEW_CODE 0) 9
     = Ret (mk_decoder [] [9]%Z NEW_CODE 0).
Proof.
  pose proof max_run_Z as HM.
  apply (literal_pixels (mk_ndarray uint8 [2; 3] [9; 9; 4; 4; 4; 7]%Z)
           2 3 0 9 2 false (mk_decoder [] [] NEW_CODE 0) 9);
    try reflexivity; try lia.
  - apply forallb_is_byte. reflexivity.
  - split; [lia|]. split; [reflexivity|].
    split; [cbn; lia|]. right. cbn. discriminate.
  - left. reflexivity.
Defined.

(** *** Runs in a bitmap of one row or one column *)

(** C5, evaluated where the code departs from it: a run of exactly 63
    pixels of value 5 that makes up the one row of a bitmap.  [encode_rle]
    raises [IndexError] there and writes no code; the codes of the claim are
    those written for such rows, and for rows of 64 pixels and of
    transparent pixels, in bitmaps of two rows. *)
Theorem run_length_boundary_single_row :
  encode_rle (mk_ndarray uint8 [1; 63] (repeat 5%Z 63)) = Raise IndexError /\
  encode_rle (mk_ndarray uint8 [2; 63] (repeat 5%Z (2 * 63)))
  = Ret ([0x00; Z.lor 0x80 63; 5; 0x00; 0x00]
         ++ [0x00; Z.lor 0x80 63; 5; 0x00; 0x00])%Z /\
  encode_rle (mk_ndarray uint8 [2; 64] (repeat 5%Z (2 * 64)))
  = Ret ([0x00; Z.lor 0xC0 (Z.shiftr 64 8); Z.land 64 0xFF; 5; 0x00; 0x00]
         ++ [0x00; Z.lor 0xC0 (Z.shiftr 64 8); Z.land 64 0xFF; 5;
             0x00; 0x00])%Z /\
  encode_rle (mk_ndarray uint8 [2; 63] (repeat 0%Z (2 * 63)))
  = Ret ([0x00; 63; 0x00; 0x00] ++ [0x00; 63; 0x00; 0x00])%Z /\
  encode_rle (mk_ndarray uint8 [2; 64] (repeat 0%Z (2 * 64)))
  = Ret ([0x00; Z.lor 0x40 (Z.shiftr 64 8); Z.land 64 0xFF; 0x00; 0x00]
         ++ [0x00; Z.lor 0x40 (Z.shiftr 64 8); Z.land 64 0xFF;
             0x00; 0x00])%Z.
Proof.
  repeat split; vm_compute; reflexivity.
Qed.

(** C6, evaluated where the code departs from it: runs that reach the last
    column in a bitmap of one column, [[1], [1], [1]], and in a bitmap of
    one row, [[1, 1, 1, 1]].  [encode_rle] raises [IndexError] on both and
    writes neither a code nor an end of line; in the bitmap of two rows of
    two such pixels each run is cut at the end of its row and followed by
    [0x00 0x00]. *)
Theorem row_boundary_single_column :
  encode_rle (mk_ndarray uint8 [3; 1] [1; 1; 1]%Z) = Raise IndexError /\
  encode_rle (mk_ndarray uint8 [1; 4] [1; 1; 1; 1]%Z) = Raise IndexError /\
  encode_rle (mk_ndarray uint8 [2; 2] [1; 1; 1; 1]%Z)
  = Ret ([1; 1; 0x00; 0x00] ++ [1; 1; 0x00; 0x00])%Z.
Proof.
  repeat split; vm_compute; reflexivity.
Qed.

(** C7, evaluated where the code departs from it: a run of two pixels of
    value 9 in the one row [[9, 9, 4]].  [encode_rle] raises [IndexError]
    and writes no literal byte; in the bitmap of two such rows the run is
    written as the two bytes [9 9], and the decoder that awaits a new code
    reads a byte 9 as one pixel and goes on awaiting a new code. *)
Theorem literal_run_single_row :
  encode_rle (mk_ndarray uint8 [1; 3] [9; 9; 4]%Z) = Raise IndexError /\
  encode_rle (mk_ndarray uint8 [2; 3] [9; 9; 4; 9; 9; 4]%Z)
  = Ret ([9; 9; 4; 0x00; 0x00] ++ [9; 9; 4; 0x00; 0x00])%Z /\
  decode_byte (mk_decoder [] [] NEW_CODE 0) 9
  = Ret (mk_decoder [] [9]%Z NEW_CODE 0).
Proof.
  repeat split; vm_compute; reflexivity.
Qed.

(** *** Lists of segments *)

Lemma payload_matching (id : Z) (l : list ODS.t) :
  payload (Segments l) (Some id) = matching_payloads id l.
Proof.
  cbn [payload]. unfold join.
  induction l as [|x l IH]; [reflexivity|].
  cbn [filter matching_payloads]. rewrite (Z.eqb_sym id).
  destruct (ODS.o_id x =? id)%Z; cbn [map concat]; rewrite IH; reflexivity.
Qed.

Lemma payload_all (l : list ODS.t) :
  payload (Segments l) None = all_payloads l.
Proof.
  cbn [payload]. unfold join.
  induction l as [|x l IH]; [reflexivity|].
  cbn [map concat all_payloads]. rewrite IH. reflexivity.
Qed.

(** C8: decoding a list of segments with an identifier is decoding the
    payloads of the segments of that identifier, joined in their order;
    decoding it without an identifier is decoding all the payloads joined;
    and for the segments [(1, X), (2, Y), (1, Z)] and the identifier 1 it is
    decoding [X ++ Z]. *)
Theorem filtered_segments_decode (l : list ODS.t) (id : Z)
    (X Y Z' : list Z) :
  decode_rle (Segments l) (Some id)
  = decode_rle (Bytes (matching_payloads id l)) None /\
  decode_rle (Segments l) None = decode_rle (Bytes (all_payloads l)) None /\
  decode_rle (Segments [ODS.mk 1 X; ODS.mk 2 Y; ODS.mk 1 Z']) (Some 1%Z)
  = decode_rle (Bytes (X ++ Z')) None.
Proof.
  unfold decode_rle. rewrite !payload_matching, payload_all.
  cbn [payload matching_payloads ODS.o_id ODS.data Z.eqb Pos.eqb].
  rewrite app_nil_r. auto.
Qed.

(** *** The long colour run *)

(** The two bytes that follow the code byte of a long colour run, when the
    length they give is not zero: the first is put into the length, the
    second is the colour. *)
Lemma large_cco_two_bytes (P : list (list Z)) (L : list Z) (hi b1 b2 : Z) :
  (0 <= hi)%Z -> (0 <= b1)%Z -> (Z.shiftl hi 8 + b1 <> 0)%Z ->
  for_byte (mk_decoder P L LARGE_CCO hi) [b1; b2]
  = Ret (mk_decoder P (L ++ times b2 (Z.shiftl hi 8 + b1)) NEW_CODE
           (- (Z.shiftl hi 8 + b1))).
Proof.
  intros Hhi Hb1 Hlen.
  assert (0 <= Z.shiftl hi 8)%Z by (apply Z.shiftl_nonneg; exact Hhi).
  decode_step.
  replace (hi >=? 0)%Z with true by (symmetry; apply Z.geb_le; lia).
  decode_step.
  replace ((Z.shiftl hi 8 + b1) * -1 >=? 0)%Z with false
    by (symmetry; rewrite Z.geb_leb; apply Z.leb_gt; lia).
  replace (-1 * ((Z.shiftl hi 8 + b1) * -1))%Z with (Z.shiftl hi 8 + b1)%Z
    by lia.
  replace ((Z.shiftl hi 8 + b1) * -1)%Z with (- (Z.shiftl hi 8 + b1))%Z
    by lia.
  reflexivity.
Qed.

(** C9, evaluated where the code departs from it: a long colour run whose
    length bytes give zero.  After [0x00 0xC0] the byte [0x00] leaves [tmp]
    at zero, which is not negative, so that the next byte, [0x05], is taken
    for a length again and the byte after it, [0x07], for the colour: five
    pixels of value 7 are decoded where the claim has no pixel of value 5
    and then one literal pixel of value 7. *)
Theorem large_cco_zero_length :
  decode_byte (mk_decoder [] [] LARGE_CCO 0) 0
  = Ret (mk_decoder [] [] LARGE_CCO 0) /\
  for_byte (mk_decoder [] [] NEW_CODE 0) [0x00; 0xC0; 0x00; 0x05]%Z
  = Ret (mk_decoder [] [] LARGE_CCO (-5)) /\
  decode_rle (Bytes [0x00; 0xC0; 0x00; 0x05; 0x07; 0x00; 0x00]%Z) None
  = Ret [[7; 7; 7; 7; 7]%Z].
Proof.
  repeat split; vm_compute; reflexivity.
Qed.

(** *** Rows and ends of lines *)







(** ** Further properties of the encoder *)

(** The [for] loop leaves [k] within the range it goes through. *)
Lemma for_k_bounds (_bitmap : ndarray) (_fp : list Z) (i n : nat) :
  forall k ile k' e,
    for_k _bitmap _fp i n k ile = Ret (k', e) -> k <= k' <= k + n.
Proof.
  induction n as [|n IH]; intros k ile k' e; cbn [for_k];
    destruct (shape_getitem _bitmap 1) as [w| |]; cbn [bind];
      try discriminate;
    destruct (py_mod i w) as [c| |]; cbn [bind]; try discriminate;
    (destruct (w <=? c + k); [intros H; injection H as <- _; lia|]);
    destruct (getitem _fp (i + k)) as [a| |]; cbn [bind]; try discriminate;
    destruct (getitem _fp i) as [b| |]; cbn [bind]; try discriminate;
    (destruct (negb (a =? b)%Z); [intros H; injection H as <- _; lia|]).
  - intros H; injection H as <- _; lia.
  - intros H. apply IH in H. lia.
Qed.

(** Every pass of the [while] loop that does not raise moves [i] forward, by
    one pixel at least and by 16383 at most; so the loop comes to an end on
    every array. *)
Theorem encode_rle_progress (bitmap : ndarray) (st st' : encoder) :
  encode_rle bitmap <> OutOfFuel /\
  (while_body (squeeze bitmap) (ravel bitmap) st = Ret st' ->
   enc_i st < enc_i st' <= enc_i st + max_run).
Proof.
  split; [apply encode_rle_terminates|].
  unfold while_body.
  destruct (for_k _ _ _ _ _ _) as [[k e]| |] eqn:Hfor; cbn [bind];
    try discriminate.
  apply for_k_bounds in Hfor.
  assert (Hk : 1 <= k <= max_run) by (pose proof max_run_Z; lia).
  clear Hfor.
  destruct (getitem _ _) as [v| |]; cbn [bind]; try discriminate.
  destruct (run_code v k) as [code| |]; cbn [bind]; try discriminate.
  destruct e; intros H; injection H as <-; cbn [enc_i]; lia.
Qed.

Lemma encode_rle_progress_witness :
  encode_rle int16_bitmap <> OutOfFuel /\
  0 < 1 <= 0 + max_run.
Proof.
  destruct (encode_rle_progress int16_bitmap (mk_encoder 0 false [])
              (mk_encoder 1 false [1]%Z)) as [Hend Hpass].
  split; [exact Hend|]. apply Hpass. vm_compute. reflexivity.
Defined.

Lemma bytearray_inv (l out : list Z) :
  bytearray l = Ret out -> out = l /\ Forall is_byte l.
Proof.
  unfold bytearray. destruct (forallb is_byteb l) eqn:Hall; [|discriminate].
  intros H. injection H as <-. split; [reflexivity|].
  apply forallb_is_byte. exact Hall.
Qed.

(** The code of a run, when it is built: bytes, and no more than two for
    each pixel of the run. *)
Lemma run_code_inv (v : Z) (k : nat) (code : list Z) :
  run_code v k = Ret code ->
  Forall is_byte code /\ (1 <= k -> length code <= 2 * k).
Proof.
  unfold run_code.
  destruct (negb (v =? 0)%Z);
    [destruct (Nat.ltb_spec k 3) as [Hk3|Hk3];
       [|destruct (Nat.leb_spec k 63) as [Hk63|Hk63]]
    |destruct (Nat.leb_spec k 63) as [Hk63|Hk63]];
    intros H; apply bytearray_inv in H; destruct H as [-> Hb];
    (split; [exact Hb|]); intros Hk;
    rewrite ?repeat_length; cbn [length]; lia.
Qed.

(** An array without any element is encoded as the empty stream, whatever
    its shape, and the empty stream decodes to no row: the rows of a bitmap
    of [h] rows of width zero are not given back. *)
Theorem encode_rle_empty (bitmap : ndarray) (h w : nat) :
  size bitmap = 0 -> shape bitmap = [h; w] -> 0 < h ->
  encode_rle bitmap = Ret [] /\
  (d <- encode_rle bitmap ;; decode_rle (Bytes d) None) = Ret [] /\
  length (tolist bitmap) = h.
Proof.
  unfold size, encode_rle, tolist. cbn [squeeze ravel]. intros Hsize Hs Hh.
  rewrite Hs. destruct (ravel bitmap); [|discriminate].
  split; [reflexivity|]. split; [reflexivity|].
  clear. generalize (@nil Z). induction h as [|h IH]; intros l; cbn [rows length].
  - reflexivity.
  - rewrite IH. reflexivity.
Qed.

Lemma encode_rle_empty_witness :
  encode_rle (mk_ndarray uint8 [3; 0] []) = Ret [] /\
  (d <- encode_rle (mk_ndarray uint8 [3; 0] []) ;; decode_rle (Bytes d) None)
  = Ret [] /\
  length (tolist (mk_ndarray uint8 [3; 0] [])) = 3.
Proof.
  apply (encode_rle_empty (mk_ndarray uint8 [3; 0] []) 3 0);
    [reflexivity | reflexivity | lia].
Defined.


Section EncoderErrors.

Variable _bitmap : ndarray.
Variable _fp : list Z.
Variables h w : nat.

Hypothesis shape_1 : shape_getitem _bitmap 1 = Ret w.
Hypothesis w_pos : 0 < w.
Hypothesis size_fp : length _fp = h * w.


(** The bytes the loop adds from position [i] on: two for each pixel left
    and two for each row left, at most. *)
Lemma while_loop_length (fuel : nat) :
  forall i rle out,
    i <= length _fp ->
    while_loop fuel _bitmap _fp (mk_encoder i false rle) = Ret out ->
    length out
    <= length rle + 2 * (length _fp - i) + 2 * (h - i / w).
Proof.
  induction fuel as [|fuel IH]; intros i rle out Hle; cbn [while_loop enc_i];
    destruct (Nat.ltb_spec i (length _fp)) as [Hi|Hge]; try discriminate;
    try (cbn [enc_rle_data]; intros H; injection H as <-; lia).
  destruct (nth_error _fp i) as [u|] eqn:Hu;
    [|apply nth_error_None in Hu; lia].
  destruct (for_k_finds_run _bitmap _fp h w shape_1 w_pos size_fp i u false
              Hi Hu) as (k & e & _ & Hrun).
  rewrite (while_body_run _bitmap _fp h w shape_1 w_pos size_fp i u k e rle
             Hi Hrun).
  destruct Hrun as (Hk & Hpix & Hstop).
  destruct (run_code u k) as [code| |] eqn:Hcode; cbn [bind];
    try discriminate.
  apply run_code_inv in Hcode. destruct Hcode as [_ Hlen].
  specialize (Hlen ltac:(lia)).
  assert (Hrow : i mod w + k <= w)
    by (unfold run_stops in Hstop; destruct e; lia).
  pose proof (row_in_bounds _fp h w w_pos size_fp i k Hi Hrow) as Hik.
  pose proof (row_index _fp h w w_pos size_fp i Hi) as Hq.
  intros Hloop. apply IH in Hloop; [|lia].
  rewrite !length_app in Hloop.
  destruct e; unfold run_stops in Hstop; cbn [line_end length] in Hloop.
  - destruct (next_row _fp h w w_pos size_fp i k Hstop) as [_ Hd].
    rewrite Hd in Hloop.
    lia.
  - destruct Hstop as [Hstop _].
    destruct (same_row _fp h w w_pos size_fp i k Hstop) as [_ Hd].
    rewrite Hd in Hloop.
    lia.
Qed.

End EncoderErrors.



(** The encoded stream of a bitmap of [h] rows and [w] columns has at most
    two bytes for each pixel and two for each row. *)
Theorem encode_rle_length (bitmap : ndarray) (h w : nat) (data : list Z) :
  shape bitmap = [h; w] -> 2 <= h -> 2 <= w -> size bitmap = h * w ->
  encode_rle bitmap = Ret data ->
  length data <= 2 * (h * w) + 2 * h.
Proof.
  intros Hs Hh Hw Hsize Henc. unfold encode_rle in Henc.
  cbn [squeeze ravel] in Henc.
  apply (while_loop_length (squeeze bitmap) (ravel bitmap) h w
           (squeeze_2d bitmap h w Hs Hh Hw) ltac:(lia) Hsize) in Henc;
    [|lia].
  cbn [length] in Henc. rewrite Nat.Div0.div_0_l in Henc.
  unfold size in Hsize. lia.
Qed.

Lemma encode_rle_length_witness :
  length [1; 2; 0; 0; 3; 4; 0; 0]%Z <= 2 * (2 * 2) + 2 * 2.
Proof.
  apply (encode_rle_length int16_bitmap 2 2); try reflexivity; try lia.
Defined.



(** A bitmap that has pixels and a single row, or a single column, is not
    encoded: [np.squeeze] drops that axis and [encode_rle] raises
    [IndexError]. *)
Theorem single_row_raises (bitmap : ndarray) (h w : nat) :
  shape bitmap = [h; w] -> h = 1 \/ w = 1 -> ravel bitmap <> [] ->
  encode_rle bitmap = Raise IndexError.
Proof.
  apply encode_rle_squeezed.
Qed.

Lemma single_row_raises_witness :
  encode_rle (mk_ndarray uint8 [3; 1] [7; 0; 7]%Z) = Raise IndexError.
Proof.
  apply (single_row_raises (mk_ndarray uint8 [3; 1] [7; 0; 7]%Z) 3 1).
  - reflexivity.
  - right. reflexivity.
  - discriminate.
Defined.

(** The code of a run and its decoding: for every value in 0..255 and every
    length from 1 to 16383 the code is built, and a decoder that awaits a
    new code and reads it adds that many pixels of that value to the open
    row, closes no row and awaits a new code again. *)
Theorem run_code_roundtrip (v : Z) (k : nat) :
  is_byte v -> 1 <= k <= max_run ->
  exists code, run_code v k = Ret code /\ decodes_as code v k.
Proof.
  apply run_code_decodes.
Qed.

Lemma run_code_roundtrip_witness :
  exists code, run_code 5 300 = Ret code /\ decodes_as code 5 300.
Proof.
  apply run_code_roundtrip.
  - unfold is_byte. lia.
  - pose proof max_run_Z. lia.
Defined.

(** Every run of a bitmap, from a pixel that begins a row or differs from
    the pixel before it up to the end of the row, a pixel of another value
    or 16383 pixels, is written as the code of its value and length at its
    place in the stream, followed by the end of the line exactly when it
    ends the row. *)
Theorem runs_are_emitted (bitmap : ndarray) (h w i : nat) (v : Z) (k : nat)
    (at_end : bool) (code : list Z) :
  shape bitmap = [h; w] -> 2 <= h -> 2 <= w ->
  size bitmap = h * w -> Forall is_byte (ravel bitmap) ->
  is_run (ravel bitmap) w i v k at_end ->
  i mod w = 0 \/ nth_error (ravel bitmap) (i - 1) <> Some v ->
  run_code v k = Ret code ->
  emits bitmap i k (code ++ line_end at_end).
Proof.
  apply run_emitted.
Qed.

Lemma runs_are_emitted_witness :
  emits (mk_ndarray uint8 [2; 3] [9; 9; 4; 4; 4; 4]%Z) 3 3
    ([0; 131; 4] ++ [0; 0])%Z.
Proof.
  pose proof max_run_Z as HM.
  apply (runs_are_emitted (mk_ndarray uint8 [2; 3] [9; 9; 4; 4; 4; 4]%Z)
           2 3 3 4 3 true); try reflexivity; try lia.
  - apply forallb_is_byte. reflexivity.
  - split; [lia|]. split; reflexivity.
  - left. reflexivity.
Defined.

(** A bitmap whose pixels all have one value, of two rows or more and of a
    width from 2 to 16383: its stream is, for each row, the code of one run
    of the width followed by the end of the line. *)
Theorem uniform_bitmap_stream (v : Z) (h w : nat) (code : list Z) :
  2 <= w <= max_run -> run_code v w = Ret code -> 2 <= h ->
  encode_rle (mk_ndarray uint8 [h; w] (repeat v (h * w)))
  = Ret (concat (repeat (code ++ [0; 0]%Z) h)).
Proof.
  apply encode_rle_uniform.
Qed.

Lemma uniform_bitmap_stream_witness :
  encode_rle (mk_ndarray uint8 [3; 5] (repeat 0%Z (3 * 5)))
  = Ret (concat (repeat ([0; 5] ++ [0; 0])%Z 3)).
Proof.
  apply (uniform_bitmap_stream 0 3 5 [0; 5]%Z).
  - pose proof max_run_Z. lia.
  - reflexivity.
  - lia.
Defined.

(** ** Further properties of the decoder *)

(** Every code of the format but one is read as the run it stands for, also
    the codes this encoder never writes (a short colour run of less than
    three pixels, a long code for a length below 64, a run of no pixel): the
    one that is not is the long colour run of length zero. *)
Theorem decoder_codes (n hi lo c : Z) :
  (0 <= n < 64)%Z -> (0 <= hi < 64)%Z -> (0 <= lo < 256)%Z ->
  (n <> 0%Z -> decodes_as [0; n]%Z 0%Z (Z.to_nat n)) /\
  decodes_as [0; 64 + hi; lo]%Z 0%Z (Z.to_nat (256 * hi + lo)) /\
  decodes_as [0; 128 + n; c]%Z c (Z.to_nat n) /\
  ((256 * hi + lo)%Z <> 0%Z ->
   decodes_as [0; 192 + hi; lo; c]%Z c (Z.to_nat (256 * hi + lo))).
Proof.
  intros Hn Hhi Hlo.
  assert (Hshift : Z.shiftl hi 8 = (256 * hi)%Z)
    by (rewrite Z.shiftl_mul_pow2 by lia; change (2 ^ 8)%Z with 256%Z; lia).
  split; [|split; [|split]].
  - intros Hn0 P L t. exists n.
    decode_step. cbn [Z.gtb Z.compare].
    decode_step. rewrite eqb_0_false by lia.
    pose proof (shiftr6_tag 0 n) as Hs. pose proof (land63_tag 0 n) as Hl.
    rewrite Z.mul_0_l, Z.add_0_l in Hs, Hl. rewrite Hs, Hl by lia.
    cbn [RLEDecoderState_of bind]. reflexivity.
  - intros P L t. exists (256 * hi + lo)%Z.
    replace (64 + hi)%Z with (1 * 64 + hi)%Z by lia.
    decode_step. cbn [Z.gtb Z.compare].
    decode_step. rewrite eqb_0_false by lia.
    rewrite shiftr6_tag, land63_tag by lia.
    cbn [RLEDecoderState_of bind].
    decode_step. rewrite Hshift. reflexivity.
  - intros P L t. exists n.
    replace (128 + n)%Z with (2 * 64 + n)%Z by lia.
    decode_step. cbn [Z.gtb Z.compare].
    decode_step. rewrite eqb_0_false by lia.
    rewrite shiftr6_tag, land63_tag by lia.
    cbn [RLEDecoderState_of bind].
    decode_step. reflexivity.
  - intros Hlen P L t. exists (- (256 * hi + lo))%Z.
    replace (192 + hi)%Z with (3 * 64 + hi)%Z by lia.
    decode_step. cbn [Z.gtb Z.compare].
    decode_step. rewrite eqb_0_false by lia.
    rewrite shiftr6_tag, land63_tag by lia.
    cbn [RLEDecoderState_of bind].
    decode_step.
    replace (hi >=? 0)%Z with true by (symmetry; apply Z.geb_le; lia).
    rewrite Hshift.
    decode_step.
    replace ((256 * hi + lo) * -1 >=? 0)%Z with false
      by (symmetry; rewrite Z.geb_leb; apply Z.leb_gt; lia).
    replace (-1 * ((256 * hi + lo) * -1))%Z with (256 * hi + lo)%Z by lia.
    replace ((256 * hi + lo) * -1)%Z with (- (256 * hi + lo))%Z by lia.
    reflexivity.
Qed.

Lemma decoder_codes_witness :
  decodes_as [0; 2]%Z 0%Z 2 /\
  decodes_as [0; 64; 2]%Z 0%Z 2 /\
  decodes_as [0; 130; 9]%Z 9%Z 2 /\
  decodes_as [0; 192; 2; 9]%Z 9%Z 2.
Proof.
  destruct (decoder_codes 2 0 2 9) as (H1 & H2 & H3 & H4); try lia.
  split; [apply H1; lia|]. split; [exact H2|]. split; [exact H3|].
  apply H4. lia.
Defined.




(** A decoder that has closed the rows [P0] before, and whose [tmp] differs
    while no code is being read, goes the same way. *)
Lemma decode_byte_after (P0 : list (list Z)) (st1 st2 st2' : decoder) (b : Z) :
  plane2d st1 = P0 ++ plane2d st2 -> line_l st1 = line_l st2 ->
  decoder_state st1 = decoder_state st2 ->
  (decoder_state st2 <> NEW_CODE -> decoder_state st2 <> NEED_MORE ->
   tmp st1 = tmp st2) ->
  decode_byte st2 b = Ret st2' ->
  exists st1',
    decode_byte st1 b = Ret st1' /\
    plane2d st1' = P0 ++ plane2d st2' /\ line_l st1' = line_l st2' /\
    decoder_state st1' = decoder_state st2' /\
    (decoder_state st2' <> NEW_CODE -> decoder_state st2' <> NEED_MORE ->
     tmp st1' = tmp st2').
Proof.
  destruct st1 as [P1 L1 s1 t1], st2 as [P2 L2 s2 t2].
  cbn [plane2d line_l decoder_state tmp]. intros -> -> -> Ht.
  unfold decode_byte. cbn [plane2d line_l decoder_state tmp].
  destruct s2.
  - destruct (b =? 0)%Z.
    + intros H. injection H as <-. eexists. split; [reflexivity|].
      cbn [plane2d line_l decoder_state tmp]. rewrite <- app_assoc.
      repeat split; congruence.
    + destruct (RLEDecoderState_of (Z.shiftr b 6)) as [s| |]; cbn [bind];
        try discriminate.
      destruct s; intros H; injection H as <-;
        (eexists; split; [reflexivity|]);
        cbn [plane2d line_l decoder_state tmp]; repeat split; congruence.
  - destruct (b >? 0)%Z; intros H; injection H as <-;
      (eexists; split; [reflexivity|]);
      cbn [plane2d line_l decoder_state tmp]; repeat split; congruence.
  - intros H. injection H as <-. eexists. split; [reflexivity|].
    cbn [plane2d line_l decoder_state tmp]. repeat split.
    intros _ _. apply Ht; discriminate.
  - rewrite Ht by discriminate.
    intros H. injection H as <-. eexists. split; [reflexivity|].
    cbn [plane2d line_l decoder_state tmp]. repeat split.
  - rewrite Ht by discriminate.
    intros H. injection H as <-. eexists. split; [reflexivity|].
    cbn [plane2d line_l decoder_state tmp]. repeat split.
  - rewrite Ht by discriminate.
    destruct (t2 >=? 0)%Z; intros H; injection H as <-;
      (eexists; split; [reflexivity|]);
      cbn [plane2d line_l decoder_state tmp]; repeat split.
Qed.

Lemma for_byte_after (P0 : list (list Z)) (bs : list Z) :
  forall st1 st2 st2',
    plane2d st1 = P0 ++ plane2d st2 -> line_l st1 = line_l st2 ->
    decoder_state st1 = decoder_state st2 ->
    (decoder_state st2 <> NEW_CODE -> decoder_state st2 <> NEED_MORE ->
     tmp st1 = tmp st2) ->
    for_byte st2 bs = Ret st2' ->
    exists st1',
      for_byte st1 bs = Ret st1' /\ plane2d st1' = P0 ++ plane2d st2'.
Proof.
  induction bs as [|b bs IH]; intros st1 st2 st2' HP HL Hs Ht; cbn [for_byte].
  - intros H. injection H as <-. exists st1. split; [reflexivity | exact HP].
  - destruct (decode_byte st2 b) as [st2a| |] eqn:Hstep; cbn [bind];
      try discriminate.
    destruct (decode_byte_after P0 st1 st2 st2a b HP HL Hs Ht Hstep)
      as (st1a & -> & HP' & HL' & Hs' & Ht').
    cbn [bind]. apply IH; assumption.
Qed.

Lemma for_byte_after_closed (a b : list Z) (st stb : decoder) :
  for_byte (mk_decoder [] [] NEW_CODE 0) a = Ret st ->
  decoder_state st = NEW_CODE -> line_l st = [] ->
  for_byte (mk_decoder [] [] NEW_CODE 0) b = Ret stb ->
  exists st',
    for_byte (mk_decoder [] [] NEW_CODE 0) (a ++ b) = Ret st' /\
    plane2d st' = plane2d st ++ plane2d stb.
Proof.
  intros Ha Hs HL Hb.
  rewrite for_byte_app, Ha. cbn [bind].
  destruct (for_byte_after (plane2d st) b st (mk_decoder [] [] NEW_CODE 0) stb)
    as (st' & Hst' & HP); cbn [plane2d line_l decoder_state tmp];
    try assumption.
  - rewrite app_nil_r. reflexivity.
  - congruence.
  - exists st'. split; assumption.
Qed.

Lemma decode_rle_inv (bs : list Z) (plane : list (list Z)) :
  decode_rle (Bytes bs) None = Ret plane ->
  exists st,
    for_byte (mk_decoder [] [] NEW_CODE 0) bs = Ret st /\ plane2d st = plane.
Proof.
  unfold decode_rle. cbn [payload].
  destruct (for_byte _ bs) as [st| |]; cbn [bind]; try discriminate.
  intros H. apply asarray_inv in H. destruct H as [-> _].
  exists st. split; reflexivity.
Qed.

(** Streams one after the other: when the first one leaves no code and no
    row open and each of the two decodes, the rows of the two together are
    those of the first followed by those of the second: the bitmap of these
    rows when they are all of one length, and the [ValueError] of
    [np.asarray] when they are not. *)
Theorem decode_rle_app (a b : list Z) (st : decoder)
    (plane_a plane_b : list (list Z)) (w : nat) :
  for_byte (mk_decoder [] [] NEW_CODE 0) a = Ret st ->
  decoder_state st = NEW_CODE -> line_l st = [] ->
  decode_rle (Bytes a) None = Ret plane_a ->
  decode_rle (Bytes b) None = Ret plane_b ->
  decode_rle (Bytes (a ++ b)) None = asarray (plane_a ++ plane_b) /\
  (Forall (fun row => length row = w) (plane_a ++ plane_b) ->
   decode_rle (Bytes (a ++ b)) None = Ret (plane_a ++ plane_b)).
Proof.
  intros Ha Hs HL Hda Hdb.
  destruct (decode_rle_inv a plane_a Hda) as (st0 & Hst0 & <-).
  rewrite Ha in Hst0. injection Hst0 as <-.
  destruct (decode_rle_inv b plane_b Hdb) as (stb & Hstb & <-).
  destruct (for_byte_after_closed a b st stb Ha Hs HL Hstb)
    as (st' & Hst' & HP).
  assert (Hall : decode_rle (Bytes (a ++ b)) None
                 = asarray (plane2d st ++ plane2d stb)).
  { unfold decode_rle. cbn [payload]. rewrite Hst'. cbn [bind].
    rewrite HP. reflexivity. }
  split; [exact Hall|].
  intros Hw. rewrite Hall. apply (asarray_Ret _ w). exact Hw.
Qed.

Lemma decode_rle_app_witness :
  (decode_rle (Bytes ([7; 0; 0] ++ [0; 130; 9; 0; 0])%Z) None
   = Raise ValueError) /\
  (decode_rle (Bytes ([7; 0; 0] ++ [9; 0; 0])%Z) None = Ret ([[7]] ++ [[9]])%Z).
Proof.
  split.
  - apply (decode_rle_app [7; 0; 0]%Z [0; 130; 9; 0; 0]%Z
             (mk_decoder [[7]%Z] [] NEW_CODE 0) [[7]%Z] [[9; 9]%Z] 1);
      reflexivity.
  - apply (decode_rle_app [7; 0; 0]%Z [9; 0; 0]%Z
             (mk_decoder [[7]%Z] [] NEW_CODE 0) [[7]%Z] [[9]%Z] 1);
      try reflexivity.
    repeat constructor.
Defined.

(** The encoder ends every stream so that the decoder has no code and no
    row open after it. *)
Lemma encode_rle_closes_rows (bitmap : ndarray) (h w : nat) :
  shape bitmap = [h; w] -> 2 <= h -> 2 <= w ->
  size bitmap = h * w -> Forall is_byte (ravel bitmap) ->
  exists data t,
    encode_rle bitmap = Ret data /\
    for_byte (mk_decoder [] [] NEW_CODE 0) data
    = Ret (mk_decoder (tolist bitmap) [] NEW_CODE t).
Proof.
  intros Hs Hh Hw Hsize Hbytes.
  pose proof (squeeze_2d bitmap h w Hs Hh Hw) as Hshape.
  destruct (while_loop_decodes (squeeze bitmap) (ravel bitmap) h w
              Hshape ltac:(lia) Hsize Hbytes
              (mk_decoder [] [] NEW_CODE 0) (length (ravel bitmap))
              0 [] [] [] 0%Z)
    as (data & t' & Henc & Hdec); try lia; try reflexivity.
  - rewrite Nat.Div0.mod_0_l. reflexivity.
  - exists data, t'. split; [exact Henc|]. rewrite Hdec.
    unfold tolist. rewrite Hs.
    rewrite Nat.Div0.div_0_l, Nat.sub_0_r. reflexivity.
Qed.

(** The streams of two bitmaps of one width, carried by two segments:
    decoding the segments gives the rows of the first bitmap followed by
    those of the second. *)
Theorem decode_rle_stacked (B1 B2 : ndarray) (h1 h2 w : nat) (id1 id2 : Z) :
  shape B1 = [h1; w] -> 2 <= h1 -> 2 <= w ->
  size B1 = h1 * w -> Forall is_byte (ravel B1) ->
  shape B2 = [h2; w] -> 2 <= h2 ->
  size B2 = h2 * w -> Forall is_byte (ravel B2) ->
  exists d1 d2,
    encode_rle B1 = Ret d1 /\ encode_rle B2 = Ret d2 /\
    decode_rle (Segments [ODS.mk id1 d1; ODS.mk id2 d2]) None
    = Ret (tolist B1 ++ tolist B2).
Proof.
  intros Hs1 Hh1 Hw Hz1 Hb1 Hs2 Hh2 Hz2 Hb2.
  destruct (encode_rle_closes_rows B1 h1 w Hs1 Hh1 Hw Hz1 Hb1)
    as (d1 & t1 & He1 & Hd1).
  destruct (encode_rle_closes_rows B2 h2 w Hs2 Hh2 Hw Hz2 Hb2)
    as (d2 & t2 & He2 & Hd2).
  exists d1, d2. split; [exact He1|]. split; [exact He2|].
  destruct (for_byte_after_closed d1 d2 _ _ Hd1 eq_refl eq_refl Hd2)
    as (st' & Hst' & HP).
  cbn [plane2d] in HP.
  unfold decode_rle. cbn [payload join map concat ODS.data].
  rewrite app_nil_r, Hst'. cbn [bind]. rewrite HP.
  apply (asarray_Ret _ w). apply Forall_app.
  unfold tolist. rewrite Hs1, Hs2.
  split; apply rows_lengths; assumption.
Qed.

Lemma decode_rle_stacked_witness :
  exists d1 d2,
    encode_rle int16_bitmap = Ret d1 /\
    encode_rle (mk_ndarray uint8 [3; 2] [9; 9; 4; 4; 4; 7]%Z) = Ret d2 /\
    decode_rle (Segments [ODS.mk 1 d1; ODS.mk 2 d2]) None
    = Ret (tolist int16_bitmap
           ++ tolist (mk_ndarray uint8 [3; 2] [9; 9; 4; 4; 4; 7]%Z)).
Proof.
  apply (decode_rle_stacked int16_bitmap
           (mk_ndarray uint8 [3; 2] [9; 9; 4; 4; 4; 7]%Z) 2 3 2 1 2);
    try reflexivity; try lia; apply forallb_is_byte; reflexivity.
Defined.

(** A byte only ever adds a row at the end of the rows. *)
Lemma decode_byte_extends (st st' : decoder) (b : Z) :
  decode_byte st b = Ret st' -> exists more, plane2d st' = plane2d st ++ more.
Proof.
  destruct st as [P L s t]. unfold decode_byte.
  cbn [decoder_state plane2d line_l tmp].
  destruct s.
  - destruct (b =? 0)%Z.
    + intros H. injection H as <-. exists [L]. reflexivity.
    + destruct (RLEDecoderState_of (Z.shiftr b 6)) as [s| |]; cbn [bind];
        try discriminate.
      destruct s; intros H; injection H as <-; exists [];
        cbn [plane2d]; rewrite app_nil_r; reflexivity.
  - destruct (b >? 0)%Z; intros H; injection H as <-; exists [];
      cbn [plane2d]; rewrite app_nil_r; reflexivity.
  - intros H. injection H as <-. exists []. cbn [plane2d].
    rewrite app_nil_r. reflexivity.
  - intros H. injection H as <-. exists []. cbn [plane2d].
    rewrite app_nil_r. reflexivity.
  - intros H. injection H as <-. exists []. cbn [plane2d].
    rewrite app_nil_r. reflexivity.
  - destruct (t >=? 0)%Z; intros H; injection H as <-; exists [];
      cbn [plane2d]; rewrite app_nil_r; reflexivity.
Qed.

Lemma for_byte_extends (bs : list Z) :
  forall st st',
    for_byte st bs = Ret st' -> exists more, plane2d st' = plane2d st ++ more.
Proof.
  induction bs as [|b bs IH]; intros st st'; cbn [for_byte].
  - intros H. injection H as <-. exists []. rewrite app_nil_r. reflexivity.
  - destruct (decode_byte st b) as [st1| |] eqn:Hstep; cbn [bind];
      try discriminate.
    intros H. apply IH in H. destruct H as (more & ->).
    apply decode_byte_extends in Hstep. destruct Hstep as (more1 & ->).
    exists (more1 ++ more). rewrite app_assoc. reflexivity.
Qed.

(** A stream cut short: whenever a stream decodes to a bitmap, its beginning
    up to any byte decodes too, to the first rows of that bitmap. *)
Theorem decode_rle_prefix (s t : list Z) (plane_st : list (list Z)) :
  decode_rle (Bytes (s ++ t)) None = Ret plane_st ->
  exists plane more,
    decode_rle (Bytes s) None = Ret plane /\ plane_st = plane ++ more.
Proof.
  unfold decode_rle. cbn [payload]. rewrite for_byte_app.
  destruct (for_byte (mk_decoder [] [] NEW_CODE 0) s) as [st| |];
    cbn [bind]; try discriminate.
  destruct (for_byte st t) as [st'| |] eqn:Hst'; cbn [bind];
    try discriminate.
  intros H. apply asarray_inv in H. destruct H as (-> & w & Hw).
  destruct (for_byte_extends t st st' Hst') as (more & Hmore).
  exists (plane2d st), more. split; [|exact Hmore].
  apply (asarray_Ret _ w). rewrite Hmore in Hw.
  apply Forall_app in Hw. apply Hw.
Qed.

Lemma decode_rle_prefix_witness :
  exists plane more,
    decode_rle (Bytes [7; 0; 0; 0; 129]%Z) None = Ret plane /\
    [[7]; [9]]%Z = plane ++ more.
Proof.
  apply (decode_rle_prefix [7; 0; 0; 0; 129]%Z [9; 0; 0]%Z). reflexivity.
Defined.

(** An identifier that no segment of the list has: the decoder raises
    nothing and returns no row. *)
Theorem decode_rle_unknown_id (l : list ODS.t) (id : Z) :
  (forall o, In o l -> ODS.o_id o <> id) ->
  decode_rle (Segments l) (Some id) = Ret [].
Proof.
  intros Hl. unfold decode_rle. rewrite payload_matching.
  replace (matching_payloads id l) with (@nil Z); [reflexivity|].
  induction l as [|o l IH]; [reflexivity|].
  cbn [matching_payloads].
  destruct (Z.eqb_spec (ODS.o_id o) id) as [Heq|_].
  - exfalso. apply (Hl o); [left; reflexivity | exact Heq].
  - apply IH. intros o' Ho'. apply Hl. right. exact Ho'.
Qed.

Lemma decode_rle_unknown_id_witness :
  decode_rle (Segments [ODS.mk 1 [7; 0; 0]%Z; ODS.mk 2 [9; 0; 0]%Z]) (Some 3%Z)
  = Ret [].
Proof.
  apply decode_rle_unknown_id.
  intros o [<-|[<-|[]]]; discriminate.
Defined.

(** ** Further properties of the adapter *)

Lemma in_uint8_is_byte (l : list Z) :
  Forall (in_dtype uint8) l -> Forall is_byte l.
Proof.
  intros H. eapply Forall_impl; [|exact H].
  intros v Hv. cbn [in_dtype] in Hv. unfold is_byte.
  change (2 ^ 8)%Z with 256%Z in Hv. exact Hv.
Qed.

(** Whenever [bitmap_to_ods] returns for an array that has pixels, the
    array is a bitmap of 8-bit values with two rows and two columns or more,
    the segment builder was given the identifier, the version, the width,
    the height and the stream in this order, and the stream decodes to the
    rows of the bitmap; so do the segments, if they carry the stream. *)
Theorem bitmap_to_ods_sound
    (from_scratch : Z -> Z -> nat -> nat -> list Z -> list ODS.t)
    (bitmap : ndarray) (o_id o_vn : Z) (segments : list ODS.t) :
  ndarray_ok bitmap -> ravel bitmap <> [] ->
  bitmap_to_ods from_scratch bitmap o_id o_vn = Ret segments ->
  exists h w data,
    dtype bitmap = uint8 /\ shape bitmap = [h; w] /\ 2 <= h /\ 2 <= w /\
    encode_rle bitmap = Ret data /\
    segments = from_scratch o_id o_vn w h data /\
    decode_rle (Bytes data) None = Ret (tolist bitmap) /\
    (all_payloads segments = data ->
     decode_rle (Segments segments) None = Ret (tolist bitmap)).
Proof.
  intros [Hsize Hvals] Hne. unfold bitmap_to_ods.
  destruct (dtype bitmap) eqn:Hd; cbn [np_dtype_eqb negb]; try discriminate.
  destruct (shape bitmap) as [|h [|w [|]]] eqn:Hs; try discriminate.
  destruct (encode_rle bitmap) as [data| |] eqn:Henc; cbn [bind];
    try discriminate.
  intros H. injection H as <-.
  cbn [fold_right] in Hsize. rewrite Nat.mul_1_r in Hsize.
  assert (Hpos : size bitmap <> 0).
  { unfold size. destruct (ravel bitmap); [congruence | discriminate]. }
  assert (Hh : 2 <= h /\ 2 <= w).
  { destruct (Nat.eq_dec h 1) as [->|]; [|destruct (Nat.eq_dec w 1) as [->|]].
    - rewrite (encode_rle_squeezed bitmap 1 w Hs (or_introl eq_refl) Hne)
        in Henc. discriminate.
    - rewrite (encode_rle_squeezed bitmap h 1 Hs (or_intror eq_refl) Hne)
        in Henc. discriminate.
    - split; nia. }
  destruct Hh as [Hh Hw].
  apply in_uint8_is_byte in Hvals.
  destruct (decode_encode_rle bitmap h w Hs Hh Hw Hsize Hvals)
    as (data' & Henc' & Hdec).
  rewrite Henc in Henc'. injection Henc' as <-.
  exists h, w, data. repeat split; try assumption; try reflexivity.
  intros Hpay. unfold decode_rle. rewrite payload_all, Hpay.
  exact Hdec.
Qed.

Lemma bitmap_to_ods_sound_witness :
  exists h w data,
    dtype (mk_ndarray uint8 [2; 3] [9; 9; 4; 4; 4; 7]%Z) = uint8 /\
    shape (mk_ndarray uint8 [2; 3] [9; 9; 4; 4; 4; 7]%Z) = [h; w] /\
    2 <= h /\ 2 <= w /\
    encode_rle (mk_ndarray uint8 [2; 3] [9; 9; 4; 4; 4; 7]%Z) = Ret data /\
    [ODS.mk 1 [9; 9; 4; 0; 0; 4; 4; 7; 0; 0]%Z]
    = (fun o_id _ _ _ d => [ODS.mk o_id d]) 1%Z 0%Z w h data /\
    decode_rle (Bytes data) None
    = Ret (tolist (mk_ndarray uint8 [2; 3] [9; 9; 4; 4; 4; 7]%Z)) /\
    (all_payloads [ODS.mk 1 [9; 9; 4; 0; 0; 4; 4; 7; 0; 0]%Z] = data ->
     decode_rle (Segments [ODS.mk 1 [9; 9; 4; 0; 0; 4; 4; 7; 0; 0]%Z])
       None
     = Ret (tolist (mk_ndarray uint8 [2; 3] [9; 9; 4; 4; 4; 7]%Z))).
Proof.
  apply (bitmap_to_ods_sound (fun o_id _ _ _ d => [ODS.mk o_id d])
           (mk_ndarray uint8 [2; 3] [9; 9; 4; 4; 4; 7]%Z) 1 0).
  - split; [reflexivity|].
    apply Forall_forall. intros v Hv. cbn [ravel] in Hv. cbn [dtype in_dtype].
    repeat (destruct Hv as [<-|Hv]; [lia|]). destruct Hv.
  - discriminate.
  - vm_compute. reflexivity.
Defined.

(** ** The enclosing box *)

Module utils_facts.

Import utils.

(** The corners only move outwards. *)
Lemma for_event_outwards (c : corners) (e : BaseEvent) :
  (pxbr c <= pxbr (for_event c e))%Z /\
  (pybr c <= pybr (for_event c e))%Z /\
  (forall p, pxtl c = Int p ->
             exists p', pxtl (for_event c e) = Int p' /\ (p' <= p)%Z) /\
  (forall q, pytl c = Int q ->
             exists q', pytl (for_event c e) = Int q' /\ (q' <= q)%Z).
Proof.
  unfold for_event. cbn [pxtl pytl pxbr pybr].
  split; [destruct (Z.ltb_spec (pxbr c) (x e + width e)); lia|].
  split; [destruct (Z.ltb_spec (pybr c) (y e + height e)); lia|].
  split; intros p ->; cbn [lt_number].
  - destruct (Z.ltb_spec (x e) p); eexists; split; try reflexivity; lia.
  - destruct (Z.ltb_spec (y e) p); eexists; split; try reflexivity; lia.
Qed.

(** The corners after an event hold the event. *)
Lemma for_event_holds (c : corners) (e : BaseEvent) :
  pxtl c <> NegInf -> pytl c <> NegInf ->
  (exists p, pxtl (for_event c e) = Int p /\ (p <= x e)%Z) /\
  (exists q, pytl (for_event c e) = Int q /\ (q <= y e)%Z) /\
  (x e + width e <= pxbr (for_event c e))%Z /\
  (y e + height e <= pybr (for_event c e))%Z.
Proof.
  intros Hx Hy. unfold for_event. cbn [pxtl pytl pxbr pybr].
  split; [|split; [|split]].
  - destruct (pxtl c) as [p| |]; cbn [lt_number]; [| |congruence].
    + destruct (Z.ltb_spec (x e) p); eexists; split; try reflexivity; lia.
    + eexists; split; [reflexivity | lia].
  - destruct (pytl c) as [q| |]; cbn [lt_number]; [| |congruence].
    + destruct (Z.ltb_spec (y e) q); eexists; split; try reflexivity; lia.
    + eexists; split; [reflexivity | lia].
  - destruct (Z.ltb_spec (pxbr c) (x e + width e)); lia.
  - destruct (Z.ltb_spec (pybr c) (y e + height e)); lia.
Qed.

Lemma fold_outwards (group : list BaseEvent) :
  forall c,
    (pxbr c <= pxbr (fold_left for_event group c))%Z /\
    (pybr c <= pybr (fold_left for_event group c))%Z /\
    (forall p, pxtl c = Int p ->
       exists p', pxtl (fold_left for_event group c) = Int p' /\ (p' <= p)%Z) /\
    (forall q, pytl c = Int q ->
       exists q', pytl (fold_left for_event group c) = Int q' /\ (q' <= q)%Z).
Proof.
  induction group as [|e group IH]; intros c; cbn [fold_left].
  - repeat split; try lia; intros p Hp; exists p; split; try assumption; lia.
  - destruct (IH (for_event c e)) as (H1 & H2 & H3 & H4).
    destruct (for_event_outwards c e) as (E1 & E2 & E3 & E4).
    split; [lia|]. split; [lia|]. split.
    + intros p Hp. destruct (E3 p Hp) as (p1 & Hp1 & Hle1).
      destruct (H3 p1 Hp1) as (p2 & Hp2 & Hle2).
      exists p2. split; [exact Hp2 | lia].
    + intros q Hq. destruct (E4 q Hq) as (q1 & Hq1 & Hle1).
      destruct (H4 q1 Hq1) as (q2 & Hq2 & Hle2).
      exists q2. split; [exact Hq2 | lia].
Qed.

Lemma fold_not_neginf (group : list BaseEvent) :
  forall c, pxtl c <> NegInf -> pytl c <> NegInf ->
            pxtl (fold_left for_event group c) <> NegInf /\
            pytl (fold_left for_event group c) <> NegInf.
Proof.
  induction group as [|e group IH]; intros c Hx Hy; cbn [fold_left].
  - split; assumption.
  - destruct (for_event_holds c e Hx Hy) as ((p & Hp & _) & (q & Hq & _) & _).
    apply IH; congruence.
Qed.

Lemma fold_holds (group : list BaseEvent) :
  forall c e,
    pxtl c <> NegInf -> pytl c <> NegInf -> In e group ->
    (exists p, pxtl (fold_left for_event group c) = Int p /\ (p <= x e)%Z) /\
    (exists q, pytl (fold_left for_event group c) = Int q /\ (q <= y e)%Z) /\
    (x e + width e <= pxbr (fold_left for_event group c))%Z /\
    (y e + height e <= pybr (fold_left for_event group c))%Z.
Proof.
  induction group as [|e0 group IH]; intros c e Hx Hy Hin; [destruct Hin|].
  cbn [fold_left].
  destruct (for_event_holds c e0 Hx Hy)
    as ((p & Hp & Hpe) & (q & Hq & Hqe) & Hr & Hb).
  destruct Hin as [->|Hin].
  - destruct (fold_outwards group (for_event c e)) as (H1 & H2 & H3 & H4).
    destruct (H3 p Hp) as (p' & Hp' & Hle).
    destruct (H4 q Hq) as (q' & Hq' & Hle').
    split; [exists p'; split; [exact Hp' | lia]|].
    split; [exists q'; split; [exact Hq' | lia]|]. lia.
  - apply IH; [congruence | congruence | exact Hin].
Qed.

(** Every corner is the one the loop began with or that of an event. *)
Lemma fold_attained (group : list BaseEvent) :
  forall c,
    (pxtl (fold_left for_event group c) = pxtl c \/
     exists e, In e group /\ pxtl (fold_left for_event group c) = Int (x e)) /\
    (pytl (fold_left for_event group c) = pytl c \/
     exists e, In e group /\ pytl (fold_left for_event group c) = Int (y e)) /\
    (pxbr (fold_left for_event group c) = pxbr c \/
     exists e, In e group /\
               pxbr (fold_left for_event group c) = (x e + width e)%Z) /\
    (pybr (fold_left for_event group c) = pybr c \/
     exists e, In e group /\
               pybr (fold_left for_event group c) = (y e + height e)%Z).
Proof.
  induction group as [|e0 group IH]; intros c; cbn [fold_left].
  - repeat split; left; reflexivity.
  - destruct (IH (for_event c e0)) as (H1 & H2 & H3 & H4).
    assert (Hin : forall (P : BaseEvent -> Prop),
               (exists e, In e group /\ P e) ->
               exists e, In e (e0 :: group) /\ P e).
    { intros P (e & He & HP). exists e. split; [right; exact He | exact HP]. }
    split; [|split; [|split]].
    + destruct H1 as [H1 | H1]; [|right; apply Hin; exact H1].
      rewrite H1. unfold for_event. cbn [pxtl].
      destruct (lt_number (x e0) (pxtl c)); [right | left; reflexivity].
      exists e0. split; [left; reflexivity | reflexivity].
    + destruct H2 as [H2 | H2]; [|right; apply Hin; exact H2].
      rewrite H2. unfold for_event. cbn [pytl].
      destruct (lt_number (y e0) (pytl c)); [right | left; reflexivity].
      exists e0. split; [left; reflexivity | reflexivity].
    + destruct H3 as [H3 | H3]; [|right; apply Hin; exact H3].
      rewrite H3. unfold for_event. cbn [pxbr].
      destruct (pxbr c <? x e0 + width e0)%Z; [right | left; reflexivity].
      exists e0. split; [left; reflexivity | reflexivity].
    + destruct H4 as [H4 | H4]; [|right; apply Hin; exact H4].
      rewrite H4. unfold for_event. cbn [pybr].
      destruct (pybr c <? y e0 + height e0)%Z; [right | left; reflexivity].
      exists e0. split; [left; reflexivity | reflexivity].
Qed.

(** The box holds every event of the group: its corner is not right of nor
    below the corner of the event, and its far edges are not left of nor
    above those of the event. *)
Theorem min_enclosing_cube_encloses (group : list BaseEvent) (e : BaseEvent) :
  In e group ->
  exists px py dw dh,
    min_enclosing_cube group
    = (mk_Pos (Int px) (Int py), mk_Dim (Int dw) (Int dh)) /\
    (px <= x e)%Z /\ (py <= y e)%Z /\
    (x e + width e <= px + dw)%Z /\ (y e + height e <= py + dh)%Z.
Proof.
  intros Hin. unfold min_enclosing_cube.
  destruct (fold_holds group (mk_corners PosInf PosInf 0 0) e)
    as ((p & Hp & Hpe) & (q & Hq & Hqe) & Hr & Hb);
    try discriminate; try exact Hin.
  rewrite Hp, Hq. cbn [sub_number].
  do 4 eexists. split; [reflexivity|]. lia.
Qed.

Lemma min_enclosing_cube_encloses_witness :
  exists px py dw dh,
    min_enclosing_cube [mk_event 4 5 10 2; mk_event 1 7 3 3]
    = (mk_Pos (Int px) (Int py), mk_Dim (Int dw) (Int dh)) /\
    (px <= 1)%Z /\ (py <= 7)%Z /\
    (1 + 3 <= px + dw)%Z /\ (7 + 3 <= py + dh)%Z.
Proof.
  apply (min_enclosing_cube_encloses
           [mk_event 4 5 10 2; mk_event 1 7 3 3] (mk_event 1 7 3 3)).
  right. left. reflexivity.
Defined.

(** The box of a group that is not empty: its corner has the least [x] and
    the least [y] of the events, each one that of an event and not above
    that of any event; its far edges are not before those of any event, and
    are those of an event or are at zero, and are never below zero. *)
Theorem min_enclosing_cube_tight (group : list BaseEvent) :
  group <> [] ->
  exists px py dw dh,
    min_enclosing_cube group
    = (mk_Pos (Int px) (Int py), mk_Dim (Int dw) (Int dh)) /\
    (exists e, In e group /\ x e = px) /\
    (exists e, In e group /\ y e = py) /\
    (forall e, In e group ->
       (px <= x e)%Z /\ (py <= y e)%Z /\
       (x e + width e <= px + dw)%Z /\ (y e + height e <= py + dh)%Z) /\
    ((px + dw)%Z = 0%Z \/
     exists e, In e group /\ (x e + width e)%Z = (px + dw)%Z) /\
    ((py + dh)%Z = 0%Z \/
     exists e, In e group /\ (y e + height e)%Z = (py + dh)%Z) /\
    (0 <= px + dw)%Z /\ (0 <= py + dh)%Z.
Proof.
  intros Hne. destruct group as [|e0 group]; [congruence|].
  unfold min_enclosing_cube.
  set (c0 := mk_corners PosInf PosInf 0 0).
  destruct (fold_holds (e0 :: group) c0 e0)
    as ((p & Hp & _) & (q & Hq & _) & _);
    try discriminate; [left; reflexivity|].
  destruct (fold_attained (e0 :: group) c0) as (A1 & A2 & A3 & A4).
  destruct (fold_outwards (e0 :: group) c0) as (O1 & O2 & _).
  assert (Hall : forall e, In e (e0 :: group) ->
             (p <= x e)%Z /\ (q <= y e)%Z /\
             (x e + width e <= pxbr (fold_left for_event (e0 :: group) c0))%Z /\
             (y e + height e <= pybr (fold_left for_event (e0 :: group) c0))%Z).
  { intros e He.
    destruct (fold_holds (e0 :: group) c0 e)
      as ((p' & Hp' & Hpe) & (q' & Hq' & Hqe) & Hr & Hb);
      try discriminate; [exact He|].
    rewrite Hp in Hp'. injection Hp' as <-.
    rewrite Hq in Hq'. injection Hq' as <-. repeat split; assumption. }
  rewrite Hp, Hq in *. cbn [sub_number].
  exists p, q, (pxbr (fold_left for_event (e0 :: group) c0) - p)%Z,
    (pybr (fold_left for_event (e0 :: group) c0) - q)%Z.
  split; [reflexivity|].
  cbn [pxtl pytl pxbr pybr c0] in A1, A2, A3, A4, O1, O2.
  split; [destruct A1 as [A1 | (e & He & A1)]; [discriminate|];
          exists e; split; [exact He | congruence]|].
  split; [destruct A2 as [A2 | (e & He & A2)]; [discriminate|];
          exists e; split; [exact He | congruence]|].
  split; [intros e He; destruct (Hall e He) as (H1 & H2 & H3 & H4); lia|].
  split; [destruct A3 as [A3 | (e & He & A3)];
          [left; lia | right; exists e; split; [exact He | lia]]|].
  split; [destruct A4 as [A4 | (e & He & A4)];
          [left; lia | right; exists e; split; [exact He | lia]]|].
  lia.
Qed.

Lemma min_enclosing_cube_tight_witness :
  let group := [mk_event 4 (-8) 10 2; mk_event (-9) 7 3 3;
                mk_event (-2) 5 1 30] in
  exists px py dw dh,
    min_enclosing_cube group
    = (mk_Pos (Int px) (Int py), mk_Dim (Int dw) (Int dh)) /\
    (exists e, In e group /\ x e = px) /\
    (exists e, In e group /\ y e = py) /\
    (forall e, In e group ->
       (px <= x e)%Z /\ (py <= y e)%Z /\
       (x e + width e <= px + dw)%Z /\ (y e + height e <= py + dh)%Z) /\
    ((px + dw)%Z = 0%Z \/
     exists e, In e group /\ (x e + width e)%Z = (px + dw)%Z) /\
    ((py + dh)%Z = 0%Z \/
     exists e, In e group /\ (y e + height e)%Z = (py + dh)%Z) /\
    (0 <= px + dw)%Z /\ (0 <= py + dh)%Z.
Proof.
  intros group. apply (min_enclosing_cube_tight group). discriminate.
Defined.

(** Two events may be taken in either order. *)
Lemma for_event_comm (c : corners) (a b : BaseEvent) :
  for_event (for_event c a) b = for_event (for_event c b) a.
Proof.
  unfold for_event. cbn [pxtl pytl pxbr pybr]. f_equal.
  - destruct (pxtl c) as [p| |]; cbn [lt_number];
      repeat match goal with
             | |- context [(?u <? ?v)%Z] =>
                 destruct (Z.ltb_spec u v); cbn [lt_number]
             end; try reflexivity; try lia; f_equal; lia.
  - destruct (pytl c) as [p| |]; cbn [lt_number];
      repeat match goal with
             | |- context [(?u <? ?v)%Z] =>
                 destruct (Z.ltb_spec u v); cbn [lt_number]
             end; try reflexivity; try lia; f_equal; lia.
  - destruct (Z.ltb_spec (pxbr c) (x a + width a)),
      (Z.ltb_spec (pxbr c) (x b + width b));
      repeat match goal with
             | |- context [(?u <? ?v)%Z] => destruct (Z.ltb_spec u v)
             end; lia.
  - destruct (Z.ltb_spec (pybr c) (y a + height a)),
      (Z.ltb_spec (pybr c) (y b + height b));
      repeat match goal with
             | |- context [(?u <? ?v)%Z] => destruct (Z.ltb_spec u v)
             end; lia.
Qed.

(** The box does not depend on the order of the events in the group. *)
Theorem min_enclosing_cube_permutation (group group' : list BaseEvent) :
  Permutation group group' ->
  min_enclosing_cube group = min_enclosing_cube group'.
Proof.
  intros Hperm. unfold min_enclosing_cube.
  assert (H : forall c, fold_left for_event group c
                        = fold_left for_event group' c).
  { induction Hperm as [|e l l' _ IH|a b l|l l' l'' _ IH1 _ IH2];
      intros c; cbn [fold_left].
    - reflexivity.
    - apply IH.
    - rewrite for_event_comm. reflexivity.
    - rewrite IH1. apply IH2. }
  rewrite H. reflexivity.
Qed.

Lemma min_enclosing_cube_permutation_witness :
  min_enclosing_cube [mk_event 4 5 10 2; mk_event 1 7 3 3]
  = min_enclosing_cube [mk_event 1 7 3 3; mk_event 4 5 10 2].
Proof.
  apply min_enclosing_cube_permutation. apply perm_swap.
Defined.

End utils_facts.
